(** * ABB tactile calibration data collector: a shallow embedding

    Embedding of [calibration/abb_real_data.py]: the trajectory library
    loader, the contact-seeking descent, the per-trajectory executor, the
    session loop, the storage merge and the command-line entry point.

    Conventions of the model.
    - Python [float] values are rationals ([Q]); only comparisons and
      additions occur on them in the code that is modelled, and each sum
      the code computes is the exact sum here: the rounding of binary64
      is not modelled, and the statements name the sums the code computes
      (a target is the pose reported plus the displacement), not closed
      forms of them.
      The cast to binary32 that the collector applies to what it stores
      is a function of the environment.
    - A Python [dict] is an association list with unique keys kept in
      insertion order ([dict_set] replaces in place, as Python does).
    - The devices are oracles: the k-th read of the force sensor and of the
      tactile sensor are given by the environment; every command sent to a
      device is appended to a trace.
    - The robot is idealised: [moveCart] reaches its target before
      returning, so the polling loop [while self.robot.moving] has no
      iteration.  The tool orientation is the same in every command and is
      left out of poses.
    - The only unbounded loop, the descent of [move_to_contact], takes
      fuel; running out of fuel is reported as [Timeout], which no
      handler catches.
    - Reading [ati.data] and talking to the robot never raise; a read of
      the tactile sensor may.  Opening the tactile sensor (which queries
      its initial marker grid) is the single event [TactileCreate].
    - Creating the directory of the storage file is not modelled; the
      storage file itself is. *)

From Stdlib Require Import List String Ascii Bool Arith Lia.
From Stdlib Require Import ZArith QArith Qround.
From Stdlib Require Import DecimalString DecimalNat.
Import ListNotations.

Open Scope string_scope.
Open Scope list_scope.

Set Warnings "-register-all".

(** ** Python dictionaries *)

Abbreviation dict V := (list (string * V)).

Fixpoint dict_get {V : Type} (k : string) (d : dict V) : option V :=
  match d with
  | [] => None
  | (k', v) :: d' => if String.eqb k k' then Some v else dict_get k d'
  end.

(** [d[k] = v] *)
Fixpoint dict_set {V : Type} (k : string) (v : V) (d : dict V) : dict V :=
  match d with
  | [] => [(k, v)]
  | (k', v') :: d' =>
      if String.eqb k k' then (k', v) :: d' else (k', v') :: dict_set k v d'
  end.

(** [k in d] *)
Definition dict_mem {V : Type} (k : string) (d : dict V) : bool :=
  match dict_get k d with Some _ => true | None => false end.

(** [d.setdefault(k, v)], for its effect on [d] *)
Definition dict_setdefault {V : Type} (k : string) (v : V) (d : dict V) : dict V :=
  if dict_mem k d then d else d ++ [(k, v)].

(** [d.get(k, default)] *)
Definition dict_get_default {V : Type} (k : string) (default : V) (d : dict V) : V :=
  match dict_get k d with Some v => v | None => default end.

Definition dict_keys {V : Type} (d : dict V) : list string := map fst d.

(** Truth value of a Python container: empty is false. *)
Definition truthy {A : Type} (l : list A) : bool :=
  match l with [] => false | _ :: _ => true end.

(** The invariant of a Python dict: no key occurs twice. *)
Definition dict_wf {V : Type} (d : dict V) : Prop := NoDup (dict_keys d).

(** ** Exceptions

    Every exception the modelled code can raise; all of them are
    subclasses of Python's [Exception]. *)

Inductive Exn : Type :=
| ForceTooLarge (fz : Q)      (* RuntimeError(f'Force too large: {fz}N') *)
| ContactNotDetected          (* RuntimeError raised after the descent loop *)
| KeyError (key : string)
| TypeError
| ValueError
| AttributeError
| DeviceError.                (* raised by the tactile SDK on a failed read *)

(** ** JSON values, as [json.load] returns them *)

Inductive json : Type :=
| JNull
| JBool (b : bool)
| JNum (q : Q)
| JStr (s : string)
| JList (l : list json)
| JDict (d : list (string * json)).

(** One displacement of a trajectory: the dict [{"x": dx, "y": dy, "z": dz}]. *)
Record Step : Type := mkStep { step_x : Q; step_y : Q; step_z : Q }.

(** A pure computation that may raise. *)
Definition result (A : Type) : Type := (Exn + A)%type.

Definition rbind {A B : Type} (r : result A) (f : A -> result B) : result B :=
  match r with inl e => inl e | inr a => f a end.

Notation "'let?' x ':=' r 'in' k" := (rbind r (fun x => k))
  (at level 10, x pattern, r at level 100, k at level 200).

Section Normalisation.

(** Python's [float] on a [str]; the parser of the runtime is not part of
    the repository. [None] stands for [ValueError]. *)
Variable float_of_str : string -> option Q.

(** [float(v)]; a number of the file is one a float can hold (an integer
    literal beyond that range, on which [float] raises, is not a value of
    [JNum]). *)
Definition py_float (v : json) : result Q :=
  match v with
  | JNum q => inr q
  | JBool b => inr (if b then 1%Q else 0%Q)
  | JStr s => match float_of_str s with Some q => inr q | None => inl ValueError end
  | JNull | JList _ | JDict _ => inl TypeError
  end.

(** The values an iteration over [v] yields ([zip] iterates its arguments). *)
Definition py_iter (v : json) : result (list json) :=
  match v with
  | JList l => inr l
  | JDict d => inr (map (fun kv => JStr (fst kv)) d)
  | JStr s => inr (map (fun c => JStr (String c EmptyString)) (list_ascii_of_string s))
  | JNull | JBool _ | JNum _ => inl TypeError
  end.

(** One entry of a list payload: [Some step] is appended, [None] is skipped. *)
Definition normalize_entry (entry : json) : result (option Step) :=
  match entry with
  | JDict d =>
      let? dx := py_float (dict_get_default "x" (JNum 0) d) in
      let? dy := py_float (dict_get_default "y" (JNum 0) d) in
      let? dz := py_float (dict_get_default "z" (JNum 0) d) in
      inr (Some (mkStep dx dy dz))
  | JList [e1; e2; e3] =>
      let? dx := py_float e1 in
      let? dy := py_float e2 in
      let? dz := py_float e3 in
      inr (Some (mkStep dx dy dz))
  | _ => inr None
  end.

(** [for entry in steps_payload: ...] *)
Fixpoint normalize_entries (payload : list json) : result (list Step) :=
  match payload with
  | [] => inr []
  | entry :: rest =>
      let? s := normalize_entry entry in
      let? steps := normalize_entries rest in
      inr (match s with Some st => st :: steps | None => steps end)
  end.

(** [for dx, dy, dz in zip(x_seq, y_seq, z_seq): ...] *)
Fixpoint normalize_zip (xs ys zs : list json) : result (list Step) :=
  match xs, ys, zs with
  | x :: xs', y :: ys', z :: zs' =>
      let? dx := py_float x in
      let? dy := py_float y in
      let? dz := py_float z in
      let? steps := normalize_zip xs' ys' zs' in
      inr (mkStep dx dy dz :: steps)
  | _, _, _ => inr []
  end.

(** The steps built from one trajectory payload. *)
Definition normalize_payload (steps_payload : json) : result (list Step) :=
  match steps_payload with
  | JList l => normalize_entries l
  | JDict d =>
      if dict_mem "x" d && dict_mem "y" d && dict_mem "z" d then
        let? x_seq := py_iter (dict_get_default "x" (JList []) d) in
        let? y_seq := py_iter (dict_get_default "y" (JList []) d) in
        let? z_seq := py_iter (dict_get_default "z" (JList []) d) in
        normalize_zip x_seq y_seq z_seq
      else inr []
  | _ => inr []
  end.

(** [for traj_name, steps_payload in traj_dict.items(): ...] *)
Fixpoint normalize_trajs (items : list (string * json))
         (obj_trajs : dict (list Step)) : result (dict (list Step)) :=
  match items with
  | [] => inr obj_trajs
  | (traj_name, steps_payload) :: rest =>
      let? steps := normalize_payload steps_payload in
      normalize_trajs rest
        (if truthy steps then dict_set traj_name steps obj_trajs else obj_trajs)
  end.

(** [for obj_name, traj_dict in raw_config.items(): ...] *)
Fixpoint normalize_objects (items : list (string * json))
         (normalized : dict (dict (list Step))) : result (dict (dict (list Step))) :=
  match items with
  | [] => inr normalized
  | (obj_name, JDict traj_dict) :: rest =>
      let? obj_trajs := normalize_trajs traj_dict [] in
      normalize_objects rest
        (if truthy obj_trajs then dict_set obj_name obj_trajs normalized else normalized)
  | (_, _) :: rest => normalize_objects rest normalized
  end.

(** The part of [_load_trajectory_config] after [json.load]:
    [raw_config.items()] raises on anything but a dict. *)
Definition normalize_config (raw_config : json) : result (dict (dict (list Step))) :=
  match raw_config with
  | JDict items => normalize_objects items []
  | _ => inl AttributeError
  end.

End Normalisation.

(** ** Collected data *)

Definition Vec3 : Type := (Q * Q * Q)%type.

(** The marker displacement field, flattened. *)
Definition Marker : Type := list Q.

(** The [metadata] dict built for each step. *)
Record Metadata : Type := mkMetadata {
  trajectory : string;
  step_index : nat;
  commanded_delta_mm : Vec3
}.

(** One step record; [metadata = None] is the empty dict of
    [metadata or {}], [depth_field] is always [None] and is left out. *)
Record StepRecord : Type := mkStepRecord {
  marker_displacement : Marker;
  force_xyz : Vec3;
  metadata : option Metadata
}.

(** object -> trajectory -> step key -> record *)
Abbreviation TrajData := (dict StepRecord).
Abbreviation ObjData := (dict (dict StepRecord)).
Abbreviation Tree := (dict (dict (dict StepRecord))).

(** ** Files and devices *)

(** What opening a file and decoding it can give. *)
Inductive FileOf (A : Type) : Type :=
| Missing                 (* the path does not exist *)
| Unreadable              (* the decoder raises *)
| Content (a : A).
Arguments Missing {A}.
Arguments Unreadable {A}.
Arguments Content {A} a.

(** What [pickle.load] gives on the storage file.  A dict that is stored
    has the shape the collector writes; a dict of another shape is not a
    value of the model. *)
Inductive Pickled : Type :=
| PickledTree (t : Tree)
| PickledOther.           (* any object that is not a dict *)

(** Everything the script reads and does not own. *)
Record Env : Type := mkEnv {
  traj_json : FileOf json;            (* calibration/obj/traj.json *)
  config_yaml : option (dict Q);      (* the file at --config, when given and present *)
  float_of_str : string -> option Q;
  joint6 : Q;                         (* sixth joint angle read by _check_joint_limit *)
  ati_feed : nat -> Vec3;             (* k-th value of ati.data[0:3] *)
  tactile_feed : nat -> option Marker; (* k-th tactile frame; None when the SDK raises *)
  rot_sensor : Vec3 -> Vec3;          (* the fixed rotation applied to forces *)
  to_float32 : Q -> Q                 (* numpy's cast [astype(np.float32)] of one value *)
}.

Inductive Level : Type := DEBUG | INFO | WARNING | ERROR.

(** One constructor per logging call of the script, with the values it formats. *)
Inductive LogMsg : Type :=
| MsgTrajFileMissing
| MsgTrajParseFailed
| MsgNoUsableTrajectory
| MsgConnect
| MsgInitPose
| MsgInitVelocity
| MsgSeekStart
| MsgForceTooLarge (fz : Q)
| MsgAtiZ (fz : Q)
| MsgContactFound (z : Q)
| MsgCollectStart (obj : string)
| MsgObjectNotInConfig (obj : string)
| MsgTrajectoryFailed (traj : string) (exc : Exn)
| MsgCollectDone (obj : string) (n : nat)
| MsgTrajectoryStart (traj : string) (n : nat)
| MsgTrajectoryDone (traj : string) (n : nat)
| MsgStepForce (idx : option nat) (f : Vec3)
| MsgStepFailed (exc : Exn)
| MsgStorageReadFailed
| MsgStorageWritten
| MsgNothingToSave
| MsgOverwrite (obj traj step : string)
| MsgStorageUpdated (objs : list string)
| MsgCleanupStart
| MsgCleanupDone
| MsgObjectUnavailable (obj : string) (available : list string)
| MsgDryRun
| MsgAvailableTrajectories (names : list string)
| MsgSessionDone
| MsgObjectSummary (obj : string) (n : nat)
| MsgTrajectorySummary (traj : string) (n : nat)
| MsgSessionError (exc : Exn).

(** What the script does to the outside world, in order. *)
Inductive Event : Type :=
| RobotInitialize
| SetAcceleration (a b : Q)
| SetVelocity (v w : Q)
| MoveCart (x y z : Q)
| MoveJoint (j6 : Q)
| MotorOff
| AtiTare
| AtiRead (k : nat)
| TactileCreate
| TactileRead (k : nat)
| TactileRelease
| Sleep (t : Q)
| StorageWrite (t : Tree)
| Log (lvl : Level) (m : LogMsg).

(** The collector object together with the world it acts on. *)
Record State : Type := mkState {
  (* attributes of ABBDataCollector *)
  object_name : string;
  config : dict Q;
  step_settle_time : Q;
  safe_offset_mm : Q;
  frame_interval : Q;
  data_frames : Z;
  trajectory_config : dict (dict (list Step));
  pose0 : Vec3;
  z_cont : option Q;
  cont_th : Q;
  calibration_data : Tree;
  (* the world *)
  env : Env;
  robot_xyz : Vec3;
  ati_reads : nat;
  tactile_reads : nat;
  storage_file : FileOf Pickled;
  trace : list Event
}.

Definition set_z_cont (z : option Q) (s : State) : State :=
  mkState (object_name s) (config s) (step_settle_time s) (safe_offset_mm s)
    (frame_interval s) (data_frames s) (trajectory_config s) (pose0 s)
    z (cont_th s) (calibration_data s)
    (env s) (robot_xyz s) (ati_reads s) (tactile_reads s) (storage_file s) (trace s).

Definition set_calibration_data (t : Tree) (s : State) : State :=
  mkState (object_name s) (config s) (step_settle_time s) (safe_offset_mm s)
    (frame_interval s) (data_frames s) (trajectory_config s) (pose0 s)
    (z_cont s) (cont_th s) t
    (env s) (robot_xyz s) (ati_reads s) (tactile_reads s) (storage_file s) (trace s).

Definition set_robot_xyz (p : Vec3) (s : State) : State :=
  mkState (object_name s) (config s) (step_settle_time s) (safe_offset_mm s)
    (frame_interval s) (data_frames s) (trajectory_config s) (pose0 s)
    (z_cont s) (cont_th s) (calibration_data s)
    (env s) p (ati_reads s) (tactile_reads s) (storage_file s) (trace s).

Definition set_ati_reads (n : nat) (s : State) : State :=
  mkState (object_name s) (config s) (step_settle_time s) (safe_offset_mm s)
    (frame_interval s) (data_frames s) (trajectory_config s) (pose0 s)
    (z_cont s) (cont_th s) (calibration_data s)
    (env s) (robot_xyz s) n (tactile_reads s) (storage_file s) (trace s).

Definition set_tactile_reads (n : nat) (s : State) : State :=
  mkState (object_name s) (config s) (step_settle_time s) (safe_offset_mm s)
    (frame_interval s) (data_frames s) (trajectory_config s) (pose0 s)
    (z_cont s) (cont_th s) (calibration_data s)
    (env s) (robot_xyz s) (ati_reads s) n (storage_file s) (trace s).

Definition set_storage_file (f : FileOf Pickled) (s : State) : State :=
  mkState (object_name s) (config s) (step_settle_time s) (safe_offset_mm s)
    (frame_interval s) (data_frames s) (trajectory_config s) (pose0 s)
    (z_cont s) (cont_th s) (calibration_data s)
    (env s) (robot_xyz s) (ati_reads s) (tactile_reads s) f (trace s).

Definition set_trace (t : list Event) (s : State) : State :=
  mkState (object_name s) (config s) (step_settle_time s) (safe_offset_mm s)
    (frame_interval s) (data_frames s) (trajectory_config s) (pose0 s)
    (z_cont s) (cont_th s) (calibration_data s)
    (env s) (robot_xyz s) (ati_reads s) (tactile_reads s) (storage_file s) t.

(** ** The monad of the script: state, exceptions, and fuel *)

Inductive Res (A : Type) : Type :=
| Ret (a : A) (s : State)      (* normal completion *)
| Exc (e : Exn) (s : State)    (* an exception is propagating *)
| Timeout.                     (* the fuel of a while loop ran out *)
Arguments Ret {A} a s.
Arguments Exc {A} e s.
Arguments Timeout {A}.

Definition M (A : Type) : Type := State -> Res A.

Definition ret {A : Type} (a : A) : M A := fun s => Ret a s.

Definition bind {A B : Type} (m : M A) (f : A -> M B) : M B :=
  fun s => match m s with
           | Ret a s' => f a s'
           | Exc e s' => Exc e s'
           | Timeout => Timeout
           end.

Definition raise {A : Type} (e : Exn) : M A := fun s => Exc e s.

(** [try: body  except Exception as exc: handler] *)
Definition try_except {A : Type} (body : M A) (handler : Exn -> M A) : M A :=
  fun s => match body s with
           | Ret a s' => Ret a s'
           | Exc e s' => handler e s'
           | Timeout => Timeout
           end.

Definition get {A : Type} (f : State -> A) : M A := fun s => Ret (f s) s.

Definition modify (f : State -> State) : M unit := fun s => Ret tt (f s).

Definition lift {A : Type} (r : result A) : M A :=
  match r with inl e => raise e | inr a => ret a end.

Notation "x <- m ;; k" := (bind m (fun x => k))
  (at level 61, m at next level, right associativity).
Notation "m ;; k" := (bind m (fun _ => k))
  (at level 61, right associativity).

Definition emit (e : Event) : M unit :=
  modify (fun s => set_trace (trace s ++ [e]) s).

Definition log (lvl : Level) (m : LogMsg) : M unit := emit (Log lvl m).

(** [time.sleep(t)] *)
Definition sleep (t : Q) : M unit := emit (Sleep t).

(** [d[k]] *)
Definition subscript {V : Type} (d : dict V) (k : string) : M V :=
  match dict_get k d with Some v => ret v | None => raise (KeyError k) end.

(** ** Devices *)

Definition get_cartesian : M Vec3 := get robot_xyz.

(** [robot.moveCart(target)]: the command is sent and the target reached. *)
Definition moveCart (x y z : Q) : M unit :=
  emit (MoveCart x y z) ;;
  modify (set_robot_xyz (x, y, z)).

Definition set_velocity (v w : Q) : M unit := emit (SetVelocity v w).

(** [get_ati_data()[0:3]]: one read of [ati.data]. *)
Definition get_ati_data : M Vec3 :=
  k <- get ati_reads ;;
  e <- get env ;;
  emit (AtiRead k) ;;
  modify (set_ati_reads (S k)) ;;
  ret (ati_feed e k).

(** [get_ati_data()[2]] *)
Definition get_ati_z : M Q :=
  f <- get_ati_data ;;
  ret (snd f).

Definition get_sensor_force_xyz : M Vec3 :=
  force_xyz <- get_ati_data ;;
  e <- get env ;;
  ret (rot_sensor e force_xyz).

(** [TactileSensor.get_data] *)
Definition sensor_get_data : M Marker :=
  k <- get tactile_reads ;;
  e <- get env ;;
  emit (TactileRead k) ;;
  modify (set_tactile_reads (S k)) ;;
  match tactile_feed e k with
  | Some m => ret m
  | None => raise DeviceError
  end.

(** ** Methods of ABBDataCollector *)

Definition _get_default_config : dict Q :=
  [ ("contact_threshold", (-2 # 100)%Q);
    ("approach_speed", 1%Q);
    ("press_speed", 8%Q);
    ("max_force", (-1)%Q);
    ("data_frames", 30%Q);
    ("frame_interval", (1 # 10)%Q);
    ("step_settle_time", (3 # 10)%Q);
    ("safe_offset_mm", 8%Q) ].

(** [self.config[key]] *)
Definition config_item (key : string) : M Q :=
  cfg <- get config ;;
  subscript cfg key.

Definition _load_trajectory_config : M (dict (dict (list Step))) :=
  e <- get env ;;
  match traj_json e with
  | Missing => log WARNING MsgTrajFileMissing ;; ret []
  | Unreadable => log ERROR MsgTrajParseFailed ;; ret []
  | Content raw_config =>
      normalized <- lift (normalize_config (float_of_str e) raw_config) ;;
      (if truthy normalized then ret tt else log WARNING MsgNoUsableTrajectory) ;;
      ret normalized
  end.

Definition _check_joint_limit : M unit :=
  e <- get env ;;
  let j := joint6 e in
  if negb (Qle_bool j 180) then emit (MoveJoint (j - 360)%Q)
  else if negb (Qle_bool (-180) j) then emit (MoveJoint (j + 360)%Q)
  else ret tt.

Definition move_to_xyz (x y z : Q) : M unit :=
  moveCart x y z.

Definition move_delta_xyz (dx dy dz : Q) : M unit :=
  cp <- get_cartesian ;;
  moveCart (fst (fst cp) + dx)%Q (snd (fst cp) + dy)%Q (snd cp + dz)%Q.

(** The [while not is_contact] loop of [move_to_contact]; the value
    returned is [is_contact] when the loop is left. *)
Fixpoint seek_loop (fuel : nat) (is_contact : bool) : M bool :=
  if is_contact then ret is_contact
  else
    match fuel with
    | O => fun _ => Timeout
    | S fuel' =>
        fz <- get_ati_z ;;
        max_force <- config_item "max_force" ;;
        if Qle_bool fz max_force then
          log ERROR (MsgForceTooLarge fz) ;;
          raise (ForceTooLarge fz)
        else
          fz_current <- get_ati_z ;;
          log DEBUG (MsgAtiZ fz_current) ;;
          th <- get cont_th ;;
          if Qle_bool fz_current th then
            cp <- get_cartesian ;;
            modify (set_z_cont (Some (snd cp))) ;;
            log INFO (MsgContactFound (snd cp)) ;;
            ret true                                  (* is_contact = True; break *)
          else
            move_delta_xyz 0 0 (- (1 # 100))%Q ;;
            sleep (2 # 10) ;;
            seek_loop fuel' is_contact
    end.

Definition move_to_contact (fuel : nat) : M unit :=
  log INFO MsgSeekStart ;;
  zc <- get z_cont ;;
  match zc with
  | Some z =>
      set_velocity 20 20 ;;
      cp <- get_cartesian ;;
      move_to_xyz (fst (fst cp)) (snd (fst cp)) (z + (1 # 10))%Q
  | None =>
      move_to_xyz (55697 # 100) (- (20020 # 100))%Q ((11505 # 100) + (1 # 10))%Q
  end ;;
  approach_speed <- config_item "approach_speed" ;;
  set_velocity approach_speed approach_speed ;;
  is_contact <- seek_loop fuel false ;;
  (if negb is_contact then raise ContactNotDetected else ret tt) ;;
  press_speed <- config_item "press_speed" ;;
  set_velocity press_speed press_speed.

(** [max(a, b)] of Python: [b] only when it is greater. *)
Definition py_max (a b : Q) : Q := if Qle_bool b a then a else b.

Definition move_to_safe_position : M unit :=
  set_velocity 20 20 ;;
  p0 <- get pose0 ;;
  off <- get safe_offset_mm ;;
  let safe_z := (snd p0 + py_max off 50)%Q in
  current_pose <- get_cartesian ;;
  move_to_xyz (fst (fst current_pose)) (snd (fst current_pose)) safe_z ;;
  sleep 1.

Definition move_to_safe_height : M unit :=
  zc <- get z_cont ;;
  off <- get safe_offset_mm ;;
  p0 <- get pose0 ;;
  let safe_z := match zc with
                | Some z => (z + off)%Q
                | None => (snd p0 + off)%Q
                end in
  current_pose <- get_cartesian ;;
  move_to_xyz (fst (fst current_pose)) (snd (fst current_pose)) safe_z ;;
  sleep (5 # 10).

Definition vec_add (a b : Vec3) : Vec3 :=
  let '(ax, ay, az) := a in
  let '(bx, by_, bz) := b in
  (ax + bx, ay + by_, az + bz)%Q.

(** [np.mean(force_data_list, axis=0)] of at least one sample.  The mean
    of no sample is not a number in numpy; it has no value here (the
    division by zero gives the zero vector), and no statement is made
    about a record sampled with [data_frames] below 1. *)
Definition vec_mean (l : list Vec3) : Vec3 :=
  let n := inject_Z (Z.of_nat (List.length l)) in
  let '(sx, sy, sz) := fold_left vec_add l (0, 0, 0)%Q in
  (sx / n, sy / n, sz / n)%Q.

(** [for _ in range(n): ...] of [_collect_current_step_data] *)
Fixpoint read_forces (n : nat) (force_data_list : list Vec3) : M (list Vec3) :=
  match n with
  | O => ret force_data_list
  | S n' =>
      force_xyz <- get_sensor_force_xyz ;;
      dt <- get frame_interval ;;
      sleep dt ;;
      read_forces n' (force_data_list ++ [force_xyz])
  end.

(** [v.astype(np.float32)] on a vector of three values *)
Definition astype_float32 (e : Env) (v : Vec3) : Vec3 :=
  (to_float32 e (fst (fst v)), to_float32 e (snd (fst v)), to_float32 e (snd v)).

Definition _collect_current_step_data (md : option Metadata) : M StepRecord :=
  try_except
    (marker_disp <- sensor_get_data ;;
     n <- get data_frames ;;
     force_data_list <- read_forces (Z.to_nat n) [] ;;
     let avg_force := vec_mean force_data_list in
     e <- get env ;;
     let data := mkStepRecord (map (to_float32 e) marker_disp)
                              (astype_float32 e avg_force) md in
     log DEBUG (MsgStepForce (option_map step_index md) avg_force) ;;
     ret data)
    (fun e => log ERROR (MsgStepFailed e) ;; raise e).

(** [f"{idx:03d}"]: decimal digits, padded with zeros to three characters. *)
Definition fmt_03d (idx : nat) : string :=
  let digits := NilEmpty.string_of_uint (Nat.to_uint idx) in
  string_of_list_ascii (repeat "0"%char (3 - String.length digits)) ++ digits.

Definition step_key_of (idx : nat) : string := "step_" ++ fmt_03d idx.

(** [for idx, step in enumerate(steps): ...] of [_execute_trajectory];
    [idx] is the index of the head of [steps]. *)
Fixpoint steps_loop (trajectory_name : string) (idx : nat) (steps : list Step)
         (trajectory_data : TrajData) : M TrajData :=
  match steps with
  | [] => ret trajectory_data
  | step :: rest =>
      let dx := step_x step in
      let dy := step_y step in
      let dz := step_z step in
      move_delta_xyz dx dy dz ;;
      let md := mkMetadata trajectory_name idx (dx, dy, dz) in
      step_data <- _collect_current_step_data (Some md) ;;
      (* [if step_data:] holds, the record being a dict of four keys *)
      steps_loop trajectory_name (S idx) rest
        (dict_set (step_key_of idx) step_data trajectory_data)
  end.

Definition _execute_trajectory (fuel : nat) (trajectory_name : string)
           (steps : list Step) : M TrajData :=
  if negb (truthy steps) then ret []
  else
    log INFO (MsgTrajectoryStart trajectory_name (List.length steps)) ;;
    move_to_safe_height ;;
    dt <- get step_settle_time ;;
    sleep dt ;;
    move_to_contact fuel ;;
    sleep dt ;;
    trajectory_data <- steps_loop trajectory_name 0 steps [] ;;
    move_to_safe_height ;;
    sleep dt ;;
    log INFO (MsgTrajectoryDone trajectory_name (List.length trajectory_data)) ;;
    ret trajectory_data.

(** [for traj_name, steps in trajectories.items(): try: ... except Exception: ...] *)
Fixpoint trajectories_loop (fuel : nat) (items : list (string * list Step))
         (object_data : ObjData) : M ObjData :=
  match items with
  | [] => ret object_data
  | (traj_name, steps) :: rest =>
      object_data' <-
        try_except
          (traj_data <- _execute_trajectory fuel traj_name steps ;;
           ret (if truthy traj_data
                then dict_set traj_name traj_data object_data
                else object_data))
          (fun exc =>
             log ERROR (MsgTrajectoryFailed traj_name exc) ;;
             ret object_data) ;;
      trajectories_loop fuel rest object_data'
  end.

Definition collect_calibration_data (fuel : nat) : M Tree :=
  name <- get object_name ;;
  log INFO (MsgCollectStart name) ;;
  tc <- get trajectory_config ;;
  let trajectories := dict_get_default name [] tc in
  if negb (truthy trajectories) then
    log WARNING (MsgObjectNotInConfig name) ;;
    modify (fun s => set_calibration_data (dict_set name [] (calibration_data s)) s) ;;
    ret [(name, [])]
  else
    object_data <- trajectories_loop fuel trajectories [] ;;
    modify (fun s => set_calibration_data (dict_set name object_data (calibration_data s)) s) ;;
    log INFO (MsgCollectDone name (List.length object_data)) ;;
    ret [(name, object_data)].

(** ** Storage *)

Definition _load_storage : M Tree :=
  f <- get storage_file ;;
  match f with
  | Missing => ret []
  | Unreadable => log ERROR MsgStorageReadFailed ;; ret []
  | Content (PickledTree data) => ret data
  | Content PickledOther => ret []
  end.

Definition _save_storage (data : Tree) : M unit :=
  modify (set_storage_file (Content (PickledTree data))) ;;
  emit (StorageWrite data) ;;
  log INFO MsgStorageWritten.

(** [for step_key, step_data in traj_steps.items(): ...]; [storage] is
    the local dict being updated in place. *)
Fixpoint save_steps (obj_name traj_name : string)
         (items : list (string * StepRecord)) (storage : Tree) : M Tree :=
  match items with
  | [] => ret storage
  | (step_key, step_data) :: rest =>
      obj <- subscript storage obj_name ;;
      traj <- subscript obj traj_name ;;
      (if dict_mem step_key traj
       then log WARNING (MsgOverwrite obj_name traj_name step_key)
       else ret tt) ;;
      (* storage[obj_name][traj_name][step_key] = copy.deepcopy(step_data) *)
      save_steps obj_name traj_name rest
        (dict_set obj_name (dict_set traj_name (dict_set step_key step_data traj) obj) storage)
  end.

(** [for traj_name, traj_steps in obj_data.items(): ...] *)
Fixpoint save_trajs (obj_name : string)
         (items : list (string * TrajData)) (storage : Tree) : M Tree :=
  match items with
  | [] => ret storage
  | (traj_name, traj_steps) :: rest =>
      obj <- subscript storage obj_name ;;
      (* storage[obj_name].setdefault(traj_name, {}) *)
      storage' <- save_steps obj_name traj_name traj_steps
                    (dict_set obj_name (dict_setdefault traj_name [] obj) storage) ;;
      save_trajs obj_name rest storage'
  end.

(** [for obj_name, obj_data in self.calibration_data.items(): ...] *)
Fixpoint save_objects (items : list (string * ObjData)) (storage : Tree) : M Tree :=
  match items with
  | [] => ret storage
  | (obj_name, obj_data) :: rest =>
      storage' <- save_trajs obj_name obj_data (dict_setdefault obj_name [] storage) ;;
      save_objects rest storage'
  end.

Definition save_calibration_data : M unit :=
  cd <- get calibration_data ;;
  if negb (truthy cd) then
    log WARNING MsgNothingToSave
  else
    storage <- _load_storage ;;
    storage' <- save_objects cd storage ;;
    _save_storage storage' ;;
    log INFO (MsgStorageUpdated (dict_keys cd)).

Definition cleanup : M unit :=
  log INFO MsgCleanupStart ;;
  move_to_safe_position ;;
  cd <- get calibration_data ;;
  (if truthy cd then save_calibration_data else ret tt) ;;
  try_except (emit TactileRelease) (fun _ => ret tt) ;;
  try_except (sleep 1 ;; emit MotorOff) (fun _ => ret tt) ;;
  log INFO MsgCleanupDone.

(** ** Construction and entry point *)

(** [int(v)] on a float: truncation towards zero. *)
Definition py_int (q : Q) : Z := if Qle_bool 0 q then Qfloor q else Qceiling q.

(** The collector before [__init__] has assigned anything, in a world where
    the robot stands at [start] and the storage file holds [stored]. *)
Definition blank (e : Env) (start : Vec3) (stored : FileOf Pickled) : State :=
  mkState "" [] 0 0 0 0 [] (0, 0, 0)%Q None 0 [] e start 0 0 stored [].

Definition pose0_init : Vec3 := (57433 # 100, - (17667 # 100), 19489 # 100)%Q.

Definition __init__ (pose0_arg : Vec3) (object_name_arg : string) : M unit :=
  e <- get env ;;
  let cfg := match config_yaml e with
             | Some loaded => loaded
             | None => _get_default_config
             end in
  trajs <- _load_trajectory_config ;;
  modify (fun s =>
    mkState object_name_arg cfg
      (dict_get_default "step_settle_time" (3 # 10)%Q cfg)
      (dict_get_default "safe_offset_mm" 1%Q cfg)
      (dict_get_default "frame_interval" (1 # 10)%Q cfg)
      (py_int (dict_get_default "data_frames" 10%Q cfg))
      trajs pose0_arg
      None (dict_get_default "contact_threshold" (- (5 # 100))%Q cfg)
      []
      (env s) (robot_xyz s) (ati_reads s) (tactile_reads s) (storage_file s) (trace s)) ;;
  log WARNING MsgConnect ;;
  emit RobotInitialize ;;
  emit (SetAcceleration (5 # 10) (5 # 10)) ;;
  set_velocity 20 20 ;;
  moveCart (fst (fst pose0_init)) (snd (fst pose0_init)) (snd pose0_init) ;;
  _check_joint_limit ;;
  sleep 1 ;;
  moveCart (fst (fst pose0_arg)) (snd (fst pose0_arg)) (snd pose0_arg) ;;
  sleep 1 ;;
  log INFO MsgInitPose ;;
  log INFO MsgInitVelocity ;;
  sleep 2 ;;
  emit AtiTare ;;
  emit TactileCreate.

Definition _load_available_objects (f : FileOf json) : list string :=
  match f with
  | Content (JDict cfg) => dict_keys cfg
  | _ => []
  end.

Record Args : Type := mkArgs {
  arg_object : string;
  arg_pose : option Vec3;
  arg_dry_run : bool
}.

Definition pose0_default : Vec3 :=
  ((57433 # 100) - 32 + (285 # 10) / 2,
   - (17667 # 100) - 32 + (172 # 10) / 2,
   (9489 # 100) + 20 + 20)%Q.

(** The summary printed after a session. *)
Fixpoint log_summary (items : list (string * ObjData)) : M unit :=
  match items with
  | [] => ret tt
  | (obj_name, obj_data) :: rest =>
      log INFO (MsgObjectSummary obj_name (List.length obj_data)) ;;
      fold_right (fun ts k => log INFO (MsgTrajectorySummary (fst ts) (List.length (snd ts))) ;; k)
                 (ret tt) obj_data ;;
      log_summary rest
  end.

Definition main (fuel : nat) (args : Args) : M unit :=
  e <- get env ;;
  let available_objects := _load_available_objects (traj_json e) in
  if truthy available_objects
     && negb (existsb (String.eqb (arg_object args)) available_objects) then
    log ERROR (MsgObjectUnavailable (arg_object args) available_objects)
  else
    let p0 := match arg_pose args with Some p => p | None => pose0_default end in
    __init__ p0 (arg_object args) ;;
    if arg_dry_run args then
      log INFO MsgDryRun ;;
      tc <- get trajectory_config ;;
      log INFO (MsgAvailableTrajectories
                  (dict_keys (dict_get_default (arg_object args) [] tc))) ;;
      cleanup
    else
      try_except
        (data <- collect_calibration_data fuel ;;
         log INFO MsgSessionDone ;;
         log_summary data)
        (fun exc => log ERROR (MsgSessionError exc)) ;;
      cleanup.                                         (* finally *)

(** ** Observations on a run *)

Definition is_motion (ev : Event) : bool :=
  match ev with MoveCart _ _ _ | MoveJoint _ => true | _ => false end.

Definition is_sampling (ev : Event) : bool :=
  match ev with AtiRead _ | TactileRead _ => true | _ => false end.

Definition is_write (ev : Event) : bool :=
  match ev with StorageWrite _ => true | _ => false end.

Definition final_state {A : Type} (r : Res A) : option State :=
  match r with Ret _ s | Exc _ s => Some s | Timeout => None end.

(** The events of a finished run. *)
Definition events_of {A : Type} (r : Res A) : list Event :=
  match final_state r with Some s => trace s | None => [] end.

(** [tree[obj][traj][step]], when all three keys are present *)
Definition tree_get (t : Tree) (obj traj step : string) : option StepRecord :=
  match dict_get obj t with
  | Some o => match dict_get traj o with
              | Some tr => dict_get step tr
              | None => None
              end
  | None => None
  end.

(** Every level of the tree is a dict. *)
Definition tree_wf (t : Tree) : Prop :=
  dict_wf t /\
  Forall (fun oe => dict_wf (snd oe) /\
                    Forall (fun te => dict_wf (snd te)) (snd oe)) t.

(** ** Views used by the statements below *)

(** What is left untouched by moving the arm and reading the force sensor. *)
Definition frame (s s' : State) : Prop :=
  env s' = env s /\ config s' = config s /\ cont_th s' = cont_th s /\
  tactile_reads s' = tactile_reads s /\ data_frames s' = data_frames s /\
  calibration_data s' = calibration_data s /\ storage_file s' = storage_file s.

(** The descent finds contact in its iteration number [n] (from 0) when
    reading starts at index [k] of the force feed: every safety reading up
    to there is above [max_force], and the first contact reading at or
    below [th] is that of iteration [n]. *)
Fixpoint descent_finds (feed : nat -> Vec3) (k : nat) (max_force th : Q) (n : nat) : bool :=
  negb (Qle_bool (snd (feed k)) max_force) &&
  match n with
  | O => Qle_bool (snd (feed (S k))) th
  | S n' => negb (Qle_bool (snd (feed (S k))) th)
            && descent_finds feed (S (S k)) max_force th n'
  end.

(** The dict [{step_000: r0, step_001: r1, ...}] in that order. *)
Fixpoint keyed_from (idx : nat) (rs : list StepRecord) : TrajData :=
  match rs with
  | [] => []
  | r :: rs' => (step_key_of idx, r) :: keyed_from (S idx) rs'
  end.

Definition keyed (rs : list StepRecord) : TrajData := keyed_from 0 rs.

(** The character of the last decimal digit of [d]. *)
Definition digit_char (d : nat) : ascii := ascii_of_nat (48 + d mod 10).

(** The key of step [i] as the text it is for [i] below 1000: the prefix
    step_ followed by the hundreds, tens and units of [i], zeros kept. *)
Definition step_key_text (i : nat) : string :=
  String "s" (String "t" (String "e" (String "p" (String "_"
    (String (digit_char (i / 100))
       (String (digit_char (i / 10))
          (String (digit_char i) EmptyString))))))).

(** The three encodings of a list of displacements in the trajectory file. *)
Definition as_objects (l : list Step) : json :=
  JList (map (fun s => JDict [("x", JNum (step_x s)); ("y", JNum (step_y s));
                              ("z", JNum (step_z s))]) l).

Definition as_tuples (l : list Step) : json :=
  JList (map (fun s => JList [JNum (step_x s); JNum (step_y s); JNum (step_z s)]) l).

Definition as_parallel (l : list Step) : json :=
  JDict [("x", JList (map (fun s => JNum (step_x s)) l));
         ("y", JList (map (fun s => JNum (step_y s)) l));
         ("z", JList (map (fun s => JNum (step_z s)) l))].

(** A trajectory file with one object and one trajectory. *)
Definition library_of (obj traj : string) (payload : json) : json :=
  JDict [(obj, JDict [(traj, payload)])].

(** The environment [e] with [raw] as the content of the trajectory file. *)
Definition with_library (e : Env) (raw : json) : Env :=
  mkEnv (Content raw) (config_yaml e) (float_of_str e) (joint6 e)
        (ati_feed e) (tactile_feed e) (rot_sensor e) (to_float32 e).

(** The trajectory library of one object and one trajectory of steps [l];
    a trajectory without steps is dropped, and the object with it. *)
Definition library_with (obj traj : string) (l : list Step) : dict (dict (list Step)) :=
  if truthy l then [(obj, [(traj, l)])] else [].

(** The merge of [save_calibration_data] without its effects:
    [d.update(items)] at the step level, and the two levels above it. *)
Definition merge_steps (items : list (string * StepRecord)) (tr : TrajData) : TrajData :=
  fold_left (fun acc kv => dict_set (fst kv) (snd kv) acc) items tr.

Definition merge_trajs (items : list (string * TrajData)) (ob : ObjData) : ObjData :=
  fold_left (fun acc ts =>
               dict_set (fst ts)
                 (merge_steps (snd ts) (dict_get_default (fst ts) [] acc))
                 (dict_setdefault (fst ts) [] acc))
            items ob.

Definition merge_objects (items : list (string * ObjData)) (st : Tree) : Tree :=
  fold_left (fun acc od =>
               dict_set (fst od)
                 (merge_trajs (snd od) (dict_get_default (fst od) [] acc))
                 (dict_setdefault (fst od) [] acc))
            items st.

(** The overwrite warnings, in the order they are logged. *)
Fixpoint warn_steps (obj traj : string) (items : list (string * StepRecord))
         (tr : TrajData) : list Event :=
  match items with
  | [] => []
  | (k, v) :: rest =>
      (if dict_mem k tr then [Log WARNING (MsgOverwrite obj traj k)] else [])
      ++ warn_steps obj traj rest (dict_set k v tr)
  end.

Fixpoint warn_trajs (obj : string) (items : list (string * TrajData))
         (ob : ObjData) : list Event :=
  match items with
  | [] => []
  | (t, steps) :: rest =>
      warn_steps obj t steps (dict_get_default t [] ob)
      ++ warn_trajs obj rest (merge_trajs [(t, steps)] ob)
  end.

Fixpoint warn_objects (items : list (string * ObjData)) (st : Tree) : list Event :=
  match items with
  | [] => []
  | (o, od) :: rest =>
      warn_trajs o od (dict_get_default o [] st)
      ++ warn_objects rest (merge_objects [(o, od)] st)
  end.

(** The tree that [_load_storage] returns for a storage file. *)
Definition loaded (f : FileOf Pickled) : Tree :=
  match f with
  | Content (PickledTree t) => t
  | _ => []
  end.

Definition add_events (evs : list Event) (s : State) : State :=
  set_trace (trace s ++ evs) s.

(** [ob[t][k]], when both keys are present *)
Definition traj_get (ob : ObjData) (t k : string) : option StepRecord :=
  match dict_get t ob with
  | Some tr => dict_get k tr
  | None => None
  end.

(** The warning logged when a stored record is overwritten. *)
Definition overwrite (o t k : string) : Event := Log WARNING (MsgOverwrite o t k).

(** The record of step [i] of trajectory [name]. *)
Definition record_of (name : string) (i : nat) (step : Step) (r : StepRecord) : Prop :=
  metadata r = Some (mkMetadata name i (step_x step, step_y step, step_z step)).

(** The events a computation adds to the trace of the state it starts in. *)
Definition new_events {A : Type} (m : M A) (s : State) : list Event :=
  skipn (List.length (trace s)) (events_of (m s)).

(** Every force value read between two states is above the limit. *)
Definition all_reads_above (limit : Q) (s s' : State) : Prop :=
  forall k, (ati_reads s <= k < ati_reads s')%nat ->
            Qle_bool (snd (ati_feed (env s) k)) limit = false.

(** The number of motion commands sent so far. *)
Definition motions (s : State) : nat := List.length (filter is_motion (trace s)).

(** [m] adds at least [k] motion commands whenever it returns. *)
Definition grows {A : Type} (k : nat) (m : M A) : Prop :=
  forall s, match m s with
            | Ret _ s' => (motions s + k <= motions s')%nat
            | Exc _ _ | Timeout => True
            end.

(** ** Example sessions *)

(** A force feed whose z readings are [zs], then zero. *)
Definition feed_of (zs : list Q) : nat -> Vec3 :=
  fun k => (0, 0, nth k zs 0)%Q.

(** The force values of the example feeds and of their means are
    representable in binary32, so the cast leaves them as they are. *)
Definition lab (traj : FileOf json) (cfg : option (dict Q)) (zs : list Q)
           (tactile : nat -> option Marker) : Env :=
  mkEnv traj cfg (fun _ => None) 0 (feed_of zs) tactile (fun f => f) (fun q => q).

(** The collector for [obj] once [__init__] has run in [e]. *)
Definition started (e : Env) (obj : string) : State :=
  let s0 := blank e (0, 0, 0)%Q Missing in
  match __init__ pose0_default obj s0 with
  | Ret _ s | Exc _ s => s
  | Timeout => s0
  end.

Definition push : Step := mkStep 0 0 (-1).

(** [{"cube": {"push": [[0, 0, -1], [0, 0, -1]]}}] *)
Definition library_push : json :=
  library_of "cube" "push" (as_tuples [push; push]).

(** [{"cube": {"a": [[0, 0, -1]], "b": [[0, 0, -1]]}}] *)
Definition library_two : json :=
  JDict [("cube", JDict [("a", as_tuples [push]); ("b", as_tuples [push])])].

Definition tactile_ok : nat -> option Marker := fun _ => Some [].

Definition some_record : StepRecord := mkStepRecord [] (0, 0, 0)%Q None.

(** Two trajectories; the first force value read is beyond the limit. *)
Definition session_two : State :=
  started (lab (Content library_two) None [-2; 0; -5 # 10]%Q tactile_ok) "cube".

(** Contact in the second iteration of the descent, at -0.5 N. *)
Definition session_contact : State :=
  started (lab (Content library_push) None [0; 0; 0; -5 # 10]%Q tactile_ok) "cube".

(** The force jumps from 0 N to -5 N between the two reads of the first
    iteration. *)
Definition session_spike : State :=
  started (lab (Content library_push) None [0; -5]%Q tactile_ok) "cube".

(** The default configuration written to a file without the key [k]. *)
Definition config_without (k : string) : dict Q :=
  filter (fun kv => negb (String.eqb (fst kv) k)) _get_default_config.

Definition session_without (k : string) : State :=
  started (lab (Content library_push) (Some (config_without k))
               [0; -5 # 10]%Q tactile_ok) "cube".

(** A session holding one record, in front of a store holding two. *)
Definition session_to_save : State :=
  set_storage_file
    (Content (PickledTree
       [("cube", [("push", [("step_000", some_record); ("step_001", some_record)])])]))
    (set_calibration_data
       [("cube", [("push", [("step_000", mkStepRecord [1%Q] (0, 0, -1)%Q None)])])]
       session_contact).

(** [main] for object cube: no trajectory file, a real run. *)
Definition run_without_library : Res unit :=
  main 5 (mkArgs "cube" None false)
       (blank (lab Missing None [] tactile_ok) (0, 0, 0)%Q Missing).

(** [main] for object cube with the push library, contact at the first
    iteration, and a tactile sensor whose every read fails. *)
Definition run_all_failed : Res unit :=
  main 5 (mkArgs "cube" None false)
       (blank (lab (Content library_push) None [0; -5 # 10]%Q (fun _ => None))
              (0, 0, 0)%Q Missing).

(** [main --object cube --dry-run] with the push library. *)
Definition run_dry : Res unit :=
  main 5 (mkArgs "cube" None true)
       (blank (lab (Content library_push) None [] tactile_ok) (0, 0, 0)%Q Missing).

(** ** Reading a stored trajectory back

    [ForceDataVisualizer.extract_force_z] of
    [calibration/data/visualize_force_comparison.py], which reads the tree
    that [save_calibration_data] writes. *)

(** [sorted] on strings, by code point; the sort is stable. *)
Fixpoint insert_sorted (k : string) (l : list string) : list string :=
  match l with
  | [] => [k]
  | x :: l' => if String.leb k x then k :: l else x :: insert_sorted k l'
  end.

Definition py_sorted (l : list string) : list string :=
  fold_right insert_sorted [] l.

(** [s.split('_')[-1]]: what follows the last underscore. *)
Fixpoint last_segment_from (s acc : string) : string :=
  match s with
  | EmptyString => acc
  | String c s' =>
      if Ascii.eqb c "_"%char then last_segment_from s' EmptyString
      else last_segment_from s' (acc ++ String c EmptyString)
  end.

Definition last_segment (s : string) : string := last_segment_from s EmptyString.

Section Visualizer.

(** Python's [int] on a [str] that is not a plain run of decimal digits
    (a sign, blanks, underscores, other scripts); [None] stands for
    [ValueError]. *)
Variable int_of_other : string -> option Z.

(** [int(s)] *)
Definition py_int_str (s : string) : result Z :=
  match s, NilEmpty.uint_of_string s with
  | String _ _, Some d => inr (Z.of_nat (Nat.of_uint d))
  | _, _ => match int_of_other s with
            | Some z => inr z
            | None => inl ValueError
            end
  end.

(** [for step_key in sorted(traj_data.keys()): ...]; every record of the
    collector has the key force_xyz, so the test on it holds. *)
Fixpoint extract_loop (traj_data : TrajData) (keys : list string)
  : result (list Z * list Q) :=
  match keys with
  | [] => inr ([], [])
  | step_key :: rest =>
      match dict_get step_key traj_data with
      | None => inl (KeyError step_key)
      | Some step_data =>
          let force_z := snd (force_xyz step_data) in
          let? step_num := py_int_str (last_segment step_key) in
          let? sf := extract_loop traj_data rest in
          inr (step_num :: fst sf, force_z :: snd sf)
      end
  end.

Definition extract_force_z (data : Tree) (obj traj : string)
  : result (list Z * list Q) :=
  match dict_get obj data with
  | None => inl (KeyError obj)
  | Some od =>
      match dict_get traj od with
      | None => inl (KeyError traj)
      | Some traj_data => extract_loop traj_data (py_sorted (dict_keys traj_data))
      end
  end.

End Visualizer.

(** ** Views used by the further properties *)

(** An entry of a list payload that yields a step: an object, or a list of
    exactly three values. *)
Definition is_step_entry (entry : json) : bool :=
  match entry with
  | JDict _ => true
  | JList [_; _; _] => true
  | _ => false
  end.

(** A trajectory library as the collector expects it: names are unique, no
    object is without trajectory and no trajectory without step. *)
Definition library_ok (cfg : dict (dict (list Step))) : Prop :=
  dict_wf cfg /\
  Forall (fun oe => snd oe <> [] /\ dict_wf (snd oe) /\
                    Forall (fun te => snd te <> []) (snd oe)) cfg.

(** The payload of three parallel lists of numbers. *)
Definition parallel_of (xs ys zs : list Q) : json :=
  JDict [("x", JList (map JNum xs)); ("y", JList (map JNum ys));
         ("z", JList (map JNum zs))].

(** [f] has the same value after [m] as before, however [m] ends. *)
Definition keeps {A B : Type} (f : State -> B) (m : M A) : Prop :=
  forall s, match m s with
            | Ret _ s' | Exc _ s' => f s' = f s
            | Timeout => True
            end.


(** One step of the descent from the pose [p] the robot reports: 0 is
    added to x and to y, -0.01 to z. *)
Definition one_step_down (p : Vec3) : Vec3 :=
  (fst (fst p) + 0, snd (fst p) + 0, snd p + - (1 # 100))%Q.

(** The motion commands of [n] steps of the descent from [p]: each targets
    the pose reported before it, one step down. *)
Fixpoint descent_commands (p : Vec3) (n : nat) : list Event :=
  match n with
  | O => []
  | S n' =>
      let q := one_step_down p in
      MoveCart (fst (fst q)) (snd (fst q)) (snd q) :: descent_commands q n'
  end.

(** The pose reached by these commands. *)
Fixpoint descent_end (p : Vec3) (n : nat) : Vec3 :=
  match n with
  | O => p
  | S n' => descent_end (one_step_down p) n'
  end.

(** The last element of a trace. *)
Definition last_event (s : State) : option Event :=
  match rev (trace s) with
  | [] => None
  | ev :: _ => Some ev
  end.


(** Nothing reaches the threshold or the limit: the arm in free air. *)
Definition session_free_air : State :=
  started (lab (Content library_push) None [] tactile_ok) "cube".

(** The tactile sensor fails on its second read. *)
Definition session_second_read_fails : State :=
  started (lab (Content library_push) None [0; -5 # 10]%Q
               (fun k => if Nat.eqb k 1 then None else Some [])) "cube".

(** * Properties *)

Open Scope nat_scope.

(** ** Dictionaries *)

Section DictFacts.
Context {V : Type}.
Implicit Types (d : dict V) (k : string) (v : V).

Lemma dict_get_set_same k v d : dict_get k (dict_set k v d) = Some v.
Proof.
  induction d as [|[k' v'] d IH]; simpl.
  - now rewrite String.eqb_refl.
  - destruct (String.eqb k k') eqn:E; simpl; rewrite E; auto.
Qed.

Lemma dict_get_set_other k k' v d :
  k <> k' -> dict_get k' (dict_set k v d) = dict_get k' d.
Proof.
  intros Hne. induction d as [|[k0 v0] d IH]; simpl.
  - destruct (String.eqb k' k) eqn:E; auto.
    apply String.eqb_eq in E. congruence.
  - destruct (String.eqb k k0) eqn:E; simpl.
    + apply String.eqb_eq in E. subst k0.
      destruct (String.eqb k' k) eqn:E'; auto.
      apply String.eqb_eq in E'. congruence.
    + now rewrite IH.
Qed.

Lemma dict_get_set k k' v d :
  dict_get k' (dict_set k v d) = if String.eqb k' k then Some v else dict_get k' d.
Proof.
  destruct (String.eqb k' k) eqn:E.
  - apply String.eqb_eq in E. subst. apply dict_get_set_same.
  - apply String.eqb_neq in E. apply dict_get_set_other. congruence.
Qed.

Lemma dict_set_set k v1 v2 d : dict_set k v2 (dict_set k v1 d) = dict_set k v2 d.
Proof.
  induction d as [|[k' v'] d IH]; simpl.
  - now rewrite String.eqb_refl.
  - destruct (String.eqb k k') eqn:E; simpl; rewrite E; congruence.
Qed.

Lemma dict_get_None_notin k d : dict_get k d = None <-> ~ In k (dict_keys d).
Proof.
  induction d as [|[k' v'] d IH]; simpl.
  - tauto.
  - destruct (String.eqb k k') eqn:E.
    + apply String.eqb_eq in E. subst. split; [discriminate | intros H; exfalso; auto].
    + apply String.eqb_neq in E. rewrite IH. intuition congruence.
Qed.

Lemma dict_set_fresh k v d : dict_get k d = None -> dict_set k v d = d ++ [(k, v)].
Proof.
  induction d as [|[k' v'] d IH]; simpl; auto.
  destruct (String.eqb k k'); [discriminate|]. intros H. now rewrite IH.
Qed.

Lemma dict_keys_set_present k v d :
  dict_get k d <> None -> dict_keys (dict_set k v d) = dict_keys d.
Proof.
  induction d as [|[k' v'] d IH]; simpl; [congruence|].
  destruct (String.eqb k k') eqn:E; simpl; auto.
  intros H. now rewrite IH.
Qed.

Lemma dict_wf_set k v d : dict_wf d -> dict_wf (dict_set k v d).
Proof.
  unfold dict_wf. intros Hwf.
  destruct (dict_get k d) eqn:E.
  - rewrite dict_keys_set_present; [auto | congruence].
  - rewrite dict_set_fresh by auto. unfold dict_keys. rewrite map_app. simpl.
    apply dict_get_None_notin in E.
    apply NoDup_app; [auto | repeat constructor; auto | ].
    intros x Hx [Hk|[]]. subst. auto.
Qed.

Lemma dict_get_setdefault k k' v d :
  dict_get k' (dict_setdefault k v d) =
  match dict_get k' d with
  | Some x => Some x
  | None => if String.eqb k' k then Some v else None
  end.
Proof.
  unfold dict_setdefault, dict_mem.
  destruct (dict_get k d) eqn:E.
  - destruct (dict_get k' d) eqn:E'; auto.
    destruct (String.eqb k' k) eqn:Ek; auto.
    apply String.eqb_eq in Ek. congruence.
  - rewrite <- (dict_set_fresh k v d E). rewrite dict_get_set.
    destruct (String.eqb k' k) eqn:Ek.
    + apply String.eqb_eq in Ek. subst. now rewrite E.
    + now destruct (dict_get k' d).
Qed.

Lemma dict_wf_setdefault k v d : dict_wf d -> dict_wf (dict_setdefault k v d).
Proof.
  unfold dict_setdefault, dict_mem. intros H.
  destruct (dict_get k d) eqn:E; auto.
  rewrite <- (dict_set_fresh k v d E). now apply dict_wf_set.
Qed.

Lemma dict_get_In k v d : dict_get k d = Some v -> In (k, v) d.
Proof.
  induction d as [|[k' v'] d IH]; simpl; [discriminate|].
  destruct (String.eqb k k') eqn:E.
  - apply String.eqb_eq in E. intros [= ->]. subst. now left.
  - auto.
Qed.

Lemma dict_wf_tail kv d : dict_wf (kv :: d) -> dict_wf d.
Proof. unfold dict_wf. simpl. now inversion 1. Qed.

Lemma dict_wf_head_fresh k v d : dict_wf ((k, v) :: d) -> dict_get k d = None.
Proof.
  unfold dict_wf. simpl. inversion 1; subst. now apply dict_get_None_notin.
Qed.

End DictFacts.

(** ** Step keys *)

Lemma zeros_string_of_uint k d :
  (string_of_list_ascii (repeat "0"%char k) ++ NilEmpty.string_of_uint d)%string =
  NilEmpty.string_of_uint (Nat.iter k Decimal.D0 d).
Proof. induction k as [|k IH]; simpl; [reflexivity | now rewrite IH]. Qed.

Lemma of_uint_leading_zeros k d :
  Nat.of_uint (Nat.iter k Decimal.D0 d) = Nat.of_uint d.
Proof. induction k as [|k IH]; simpl; [reflexivity | exact IH]. Qed.

Lemma string_of_uint_inj d d' :
  NilEmpty.string_of_uint d = NilEmpty.string_of_uint d' -> d = d'.
Proof.
  intros H. apply (f_equal NilEmpty.uint_of_string) in H.
  rewrite !NilEmpty.usu in H. congruence.
Qed.

Lemma fmt_03d_inj a b : fmt_03d a = fmt_03d b -> a = b.
Proof.
  unfold fmt_03d. rewrite !zeros_string_of_uint. intros H.
  apply string_of_uint_inj in H. apply (f_equal Nat.of_uint) in H.
  rewrite !of_uint_leading_zeros, !Unsigned.of_to in H. exact H.
Qed.

Lemma step_key_of_inj a b : step_key_of a = step_key_of b -> a = b.
Proof.
  unfold step_key_of. simpl. intros H. apply fmt_03d_inj. congruence.
Qed.

Lemma step_key_of_small :
  step_key_of 0 = "step_000" /\ step_key_of 7 = "step_007" /\
  step_key_of 42 = "step_042" /\ step_key_of 999 = "step_999" /\
  step_key_of 1000 = "step_1000".
Proof. repeat split; reflexivity. Qed.

Arguments step_key_of : simpl never.

Lemma keyed_from_keys idx rs :
  dict_keys (keyed_from idx rs) = map step_key_of (seq idx (List.length rs)).
Proof.
  revert idx. induction rs as [|r rs IH]; intros idx; simpl; [reflexivity|].
  now rewrite IH.
Qed.

Lemma keyed_length rs : List.length (keyed rs) = List.length rs.
Proof.
  unfold keyed. generalize 0.
  induction rs as [|r rs IH]; intros idx; simpl; [reflexivity | now rewrite IH].
Qed.

Lemma keyed_keys rs :
  dict_keys (keyed rs) = map step_key_of (seq 0 (List.length rs)).
Proof. apply keyed_from_keys. Qed.

Lemma keyed_from_snoc idx rs r :
  keyed_from idx (rs ++ [r]) =
  keyed_from idx rs ++ [(step_key_of (idx + List.length rs), r)].
Proof.
  revert idx. induction rs as [|x rs IH]; intros idx; simpl.
  - now rewrite Nat.add_0_r.
  - rewrite IH. now rewrite Nat.add_succ_r.
Qed.

Lemma keyed_get_fresh rs i :
  List.length rs <= i -> dict_get (step_key_of i) (keyed rs) = None.
Proof.
  intros Hle. apply dict_get_None_notin. rewrite keyed_keys.
  intros Hin. apply in_map_iff in Hin. destruct Hin as [j [Hj Hin]].
  apply step_key_of_inj in Hj. subst j. apply in_seq in Hin. lia.
Qed.

Lemma keyed_set_next rs r :
  dict_set (step_key_of (List.length rs)) r (keyed rs) = keyed (rs ++ [r]).
Proof.
  unfold keyed at 2. rewrite keyed_from_snoc. simpl.
  apply dict_set_fresh. now apply keyed_get_fresh.
Qed.

Lemma keyed_from_get idx rs i r :
  nth_error rs i = Some r ->
  dict_get (step_key_of (idx + i)) (keyed_from idx rs) = Some r.
Proof.
  revert idx i. induction rs as [|x rs IH]; intros idx i H.
  - now destruct i.
  - cbn [keyed_from dict_get]. destruct i as [|i]; cbn [nth_error] in H.
    + injection H as ->. now rewrite Nat.add_0_r, String.eqb_refl.
    + destruct (String.eqb_spec (step_key_of (idx + S i)) (step_key_of idx)) as [E|E].
      * apply step_key_of_inj in E. lia.
      * rewrite <- Nat.add_succ_comm. now apply IH.
Qed.

Lemma keyed_get rs i r :
  nth_error rs i = Some r -> dict_get (step_key_of i) (keyed rs) = Some r.
Proof. apply (keyed_from_get 0). Qed.

(** ** Trajectory encodings *)

Section Encodings.
Variable parse : string -> option Q.

Lemma normalize_objects_form l :
  normalize_payload parse (as_objects l) = inr l.
Proof.
  unfold as_objects. simpl.
  induction l as [|[x y z] l IH]; simpl; [reflexivity|].
  now rewrite IH.
Qed.

Lemma normalize_tuples_form l :
  normalize_payload parse (as_tuples l) = inr l.
Proof.
  unfold as_tuples. simpl.
  induction l as [|[x y z] l IH]; simpl; [reflexivity|].
  now rewrite IH.
Qed.

Lemma normalize_parallel_form l :
  normalize_payload parse (as_parallel l) = inr l.
Proof.
  unfold as_parallel. simpl.
  induction l as [|[x y z] l IH]; simpl; [reflexivity|].
  now rewrite IH.
Qed.

Lemma normalize_library obj traj payload l :
  normalize_payload parse payload = inr l ->
  normalize_config parse (library_of obj traj payload) =
  inr (if truthy l then [(obj, [(traj, l)])] else []).
Proof.
  intros H. unfold library_of, normalize_config. simpl. rewrite H. simpl.
  now destruct l.
Qed.

End Encodings.

Lemma load_trajectory_config_library e start stored obj traj payload l :
  normalize_payload (float_of_str e) payload = inr l ->
  exists s',
    _load_trajectory_config
      (blank (with_library e (library_of obj traj payload)) start stored)
    = Ret (library_with obj traj l) s'.
Proof.
  intros H. unfold _load_trajectory_config, bind, get.
  cbn [env blank traj_json with_library float_of_str].
  rewrite (normalize_library _ obj traj payload l H).
  unfold library_with. destruct l; cbn; eexists; reflexivity.
Qed.

(** C9: the three encodings of an ordered list of displacements -- objects
    with keys x, y, z, lists of three numbers, and three parallel lists
    keyed x, y, z -- are normalised to the same ordered list of steps,
    the list itself; [_load_trajectory_config] returns the same trajectory
    library for a trajectory file holding any of them. *)
Theorem trajectory_encodings_agree (e : Env) (l : list Step) :
  normalize_payload (float_of_str e) (as_objects l) = inr l /\
  normalize_payload (float_of_str e) (as_tuples l) = inr l /\
  normalize_payload (float_of_str e) (as_parallel l) = inr l /\
  forall start stored obj traj,
    exists s1 s2 s3,
      _load_trajectory_config
        (blank (with_library e (library_of obj traj (as_objects l))) start stored)
      = Ret (library_with obj traj l) s1 /\
      _load_trajectory_config
        (blank (with_library e (library_of obj traj (as_tuples l))) start stored)
      = Ret (library_with obj traj l) s2 /\
      _load_trajectory_config
        (blank (with_library e (library_of obj traj (as_parallel l))) start stored)
      = Ret (library_with obj traj l) s3.
Proof.
  split; [apply normalize_objects_form|].
  split; [apply normalize_tuples_form|].
  split; [apply normalize_parallel_form|].
  intros start stored obj traj.
  destruct (load_trajectory_config_library e start stored obj traj _ l
              (normalize_objects_form _ l)) as [s1 H1].
  destruct (load_trajectory_config_library e start stored obj traj _ l
              (normalize_tuples_form _ l)) as [s2 H2].
  destruct (load_trajectory_config_library e start stored obj traj _ l
              (normalize_parallel_form _ l)) as [s3 H3].
  exists s1, s2, s3. auto.
Qed.

(** ** The contact-seeking descent *)

Ltac run_monad :=
  unfold get_ati_z, get_sensor_force_xyz, get_ati_data, sensor_get_data,
    config_item, subscript, log, sleep,
    move_to_safe_height, move_to_safe_position,
    move_delta_xyz, move_to_xyz, get_cartesian, moveCart, set_velocity, emit,
    try_except, bind, get, modify, ret, raise, add_events.

Ltac frame_tac := unfold frame in *; cbn in *; intuition congruence.

Lemma frame_refl s : frame s s.
Proof. frame_tac. Qed.

Lemma frame_trans s1 s2 s3 : frame s1 s2 -> frame s2 s3 -> frame s1 s3.
Proof. frame_tac. Qed.

Lemma seek_loop_exits fuel : forall s,
  match seek_loop fuel false s with
  | Ret b s' => b = true /\ z_cont s' <> None /\ frame s s'
  | Exc e s' =>
      ((exists fz, e = ForceTooLarge fz) \/
       (e = KeyError "max_force" /\ dict_get "max_force" (config s) = None))
      /\ frame s s'
  | Timeout => True
  end.
Proof.
  induction fuel as [|fuel IH]; intros s; [exact I|].
  cbn [seek_loop]. run_monad. cbn -[seek_loop Qle_bool Qplus].
  destruct (dict_get "max_force" (config s)) as [m|] eqn:Hm;
    cbn -[seek_loop Qle_bool Qplus].
  2:{ split; [now right | frame_tac]. }
  destruct (Qle_bool _ m); cbn -[seek_loop Qle_bool Qplus].
  { split; [left; eauto | frame_tac]. }
  destruct (Qle_bool _ (cont_th s)); cbn -[seek_loop Qle_bool Qplus].
  { split; [reflexivity | split; [cbn; congruence | frame_tac]]. }
  match goal with |- context [seek_loop fuel false ?s1] => specialize (IH s1) end.
  destruct (seek_loop fuel false _) as [b s'|e s'|]; [| |exact I].
  - destruct IH as (Hb & Hz & Hf). split; [exact Hb | split; [exact Hz | frame_tac]].
  - destruct IH as (He & Hf). cbn in He. rewrite Hm in He.
    split; [|frame_tac].
    destruct He as [He|[_ He]]; [now left | discriminate].
Qed.

(** Enough fuel gives the result: when the feed crosses the contact
    threshold in iteration [n] with every safety reading above the limit,
    the loop returns with contact after reading the feed [2 * (n + 1)] times. *)
Lemma seek_loop_finds n : forall fuel s m,
  dict_get "max_force" (config s) = Some m ->
  descent_finds (ati_feed (env s)) (ati_reads s) m (cont_th s) n = true ->
  n < fuel ->
  exists s', seek_loop fuel false s = Ret true s' /\
             frame s s' /\ z_cont s' <> None /\
             ati_reads s' = ati_reads s + 2 * (n + 1).
Proof.
  induction n as [|n IH]; intros fuel s m Hm Hd Hlt;
    (destruct fuel as [|fuel]; [lia|]);
    cbn [descent_finds] in Hd;
    apply andb_prop in Hd; destruct Hd as [Hsafe Hd];
    apply negb_true_iff in Hsafe;
    cbn [seek_loop]; run_monad; cbn -[seek_loop Qle_bool Qplus];
    rewrite Hm; cbn -[seek_loop Qle_bool Qplus];
    rewrite Hsafe; cbn -[seek_loop Qle_bool Qplus].
  - rewrite Hd. eexists. split; [reflexivity|].
    split; [frame_tac | split; [cbn; congruence | cbn; lia]].
  - apply andb_prop in Hd. destruct Hd as [Hth Hd].
    apply negb_true_iff in Hth. rewrite Hth. cbn -[seek_loop Qle_bool Qplus].
    match goal with |- context [seek_loop fuel false ?s1] =>
      destruct (IH fuel s1 m) as (s' & Hrun & Hf & Hz & Hk) end;
      [exact Hm | exact Hd | lia |].
    exists s'. split; [exact Hrun|].
    split; [frame_tac | split; [exact Hz | cbn in Hk; lia]].
Qed.

Lemma move_to_contact_no_contact_error fuel s s' :
  move_to_contact fuel s <> Exc ContactNotDetected s'.
Proof.
  unfold move_to_contact. run_monad. cbn -[seek_loop Qle_bool Qplus].
  destruct (z_cont s); cbn -[seek_loop Qle_bool Qplus];
    (destruct (dict_get "approach_speed" (config s));
     cbn -[seek_loop Qle_bool Qplus]; [|discriminate]);
    match goal with |- context [seek_loop fuel false ?s1] =>
      pose proof (seek_loop_exits fuel s1) as H;
      destruct (seek_loop fuel false s1) as [b s2|e s2|] end;
    try discriminate.
  all: try (destruct H as (-> & _ & _); cbn;
            match goal with |- context [dict_get "press_speed" ?c] =>
              destruct (dict_get "press_speed" c) end; cbn; discriminate).
  all: destruct H as [[[fz ->]|[-> _]] _]; discriminate.
Qed.

(** C10: the descent loop is left only with [is_contact] set or by the
    over-force error, so the check after the loop never fires and the
    function never raises the contact-not-found error. *)
Theorem contact_not_found_unreachable (fuel : nat) (s : State) (m : Q) :
  dict_get "max_force" (config s) = Some m ->
  match seek_loop fuel false s with
  | Ret is_contact s' => is_contact = true /\ z_cont s' <> None
  | Exc e _ => exists fz, e = ForceTooLarge fz
  | Timeout => True
  end /\
  forall s', move_to_contact fuel s <> Exc ContactNotDetected s'.
Proof.
  intros Hm. split; [|intros s'; apply move_to_contact_no_contact_error].
  pose proof (seek_loop_exits fuel s) as H.
  destruct (seek_loop fuel false s) as [b s'|e s'|]; [| |exact I].
  - tauto.
  - destruct H as [[H|[_ H]] _]; [exact H | congruence].
Qed.

(** ** Executing one trajectory *)

Lemma read_forces_runs n : forall acc s,
  exists l s', read_forces n acc s = Ret l s' /\ frame s s'.
Proof.
  induction n as [|n IH]; intros acc s; cbn [read_forces].
  - exists acc, s. split; [reflexivity | apply frame_refl].
  - run_monad. cbn -[read_forces].
    match goal with |- context [read_forces n ?a ?s1] =>
      destruct (IH a s1) as (l & s' & Hrun & Hf) end.
    exists l, s'. split; [exact Hrun | frame_tac].
Qed.

Lemma collect_step_runs md s mk :
  tactile_feed (env s) (tactile_reads s) = Some mk ->
  exists r s',
    _collect_current_step_data md s = Ret r s' /\
    metadata r = md /\ marker_displacement r = map (to_float32 (env s)) mk /\
    env s' = env s /\ data_frames s' = data_frames s /\
    tactile_reads s' = S (tactile_reads s).
Proof.
  intros Hfeed. unfold _collect_current_step_data.
  run_monad. cbn -[read_forces vec_mean]. rewrite Hfeed.
  match goal with |- context [read_forces ?n ?a ?s1] =>
    destruct (read_forces_runs n a s1) as (l & s' & Hrun & Hf) end.
  rewrite Hrun. eexists. eexists. split; [reflexivity|].
  cbn. repeat split; frame_tac.
Qed.

Lemma collect_step_fails md s :
  tactile_feed (env s) (tactile_reads s) = None ->
  exists s', _collect_current_step_data md s = Exc DeviceError s'.
Proof.
  intros Hfeed. unfold _collect_current_step_data.
  run_monad. cbn. rewrite Hfeed. eexists. reflexivity.
Qed.

Lemma steps_loop_runs name steps : forall rs0 s,
  (forall i, i < List.length steps ->
             tactile_feed (env s) (tactile_reads s + i) <> None) ->
  exists rs s',
    steps_loop name (List.length rs0) steps (keyed rs0) s = Ret (keyed (rs0 ++ rs)) s' /\
    List.length rs = List.length steps /\
    (forall i step, nth_error steps i = Some step ->
       exists r, nth_error rs i = Some r /\ record_of name (List.length rs0 + i) step r) /\
    env s' = env s /\ data_frames s' = data_frames s.
Proof.
  induction steps as [|step steps IH]; intros rs0 s Hfeed.
  - exists [], s. rewrite app_nil_r. repeat split; auto.
    intros i st H. now destruct i.
  - cbn [steps_loop]. unfold bind at 1. unfold move_delta_xyz.
    run_monad. cbn -[_collect_current_step_data steps_loop].
    match goal with |- context [_collect_current_step_data ?md ?s1] =>
      destruct (tactile_feed (env s1) (tactile_reads s1)) as [mk|] eqn:Hk;
      [ destruct (collect_step_runs md s1 mk Hk)
          as (r & s2 & Hrun & Hmd & _ & Henv & Hdf & Htr)
      | exfalso; cbn in Hk; apply (Hfeed 0); [cbn; lia | now rewrite Nat.add_0_r] ]
    end.
    rewrite Hrun. rewrite keyed_set_next.
    destruct (IH (rs0 ++ [r]) s2) as (rs & s' & Hloop & Hlen & Hrec & Henv' & Hdf').
    { intros i Hi. rewrite Henv, Htr. cbn.
      rewrite <- Nat.add_succ_r. apply Hfeed. cbn. lia. }
    rewrite length_app in Hloop. cbn [List.length] in Hloop.
    rewrite Nat.add_1_r in Hloop. rewrite Hloop.
    exists (r :: rs), s'. rewrite <- app_assoc. cbn [app].
    split; [reflexivity|]. split; [cbn; lia|].
    split; [|split; [rewrite Henv', Henv; reflexivity
                    | rewrite Hdf', Hdf; reflexivity]].
    intros i st Hi. destruct i as [|i]; cbn [nth_error] in *.
    + injection Hi as <-. exists r. split; [reflexivity|].
      unfold record_of. now rewrite Hmd, Nat.add_0_r.
    + destruct (Hrec i st Hi) as (r' & Hr' & Hrec').
      exists r'. split; [exact Hr'|].
      unfold record_of in *. rewrite Hrec'. rewrite length_app. cbn.
      f_equal. f_equal. lia.
Qed.

Lemma move_to_contact_finds fuel s a m p n :
  dict_get "approach_speed" (config s) = Some a ->
  dict_get "max_force" (config s) = Some m ->
  dict_get "press_speed" (config s) = Some p ->
  descent_finds (ati_feed (env s)) (ati_reads s) m (cont_th s) n = true ->
  n < fuel ->
  exists s', move_to_contact fuel s = Ret tt s' /\ frame s s' /\ z_cont s' <> None.
Proof.
  intros Ha Hm Hp Hd Hlt. unfold move_to_contact.
  run_monad. cbn -[seek_loop Qle_bool Qplus].
  destruct (z_cont s); cbn -[seek_loop Qle_bool Qplus];
    rewrite Ha; cbn -[seek_loop Qle_bool Qplus];
    match goal with |- context [seek_loop fuel false ?s1] =>
      destruct (seek_loop_finds n fuel s1 m) as (s' & Hrun & Hf & Hz & _);
        [exact Hm | exact Hd | exact Hlt |]
    end;
    rewrite Hrun; cbn;
    (replace (config s') with (config s) by frame_tac);
    rewrite Hp; cbn; eexists; (split; [reflexivity|]);
    (split; [frame_tac | cbn; exact Hz]).
Qed.

Lemma step_key_of_text i : i < 1000 -> step_key_of i = step_key_text i.
Proof.
  intros Hi.
  assert (H : forallb (fun i => String.eqb (step_key_of i) (step_key_text i))
                      (seq 0 1000) = true) by (vm_compute; reflexivity).
  rewrite forallb_forall in H. apply String.eqb_eq. apply H. apply in_seq. lia.
Qed.

Lemma nth_error_map_seq {A : Type} (f : nat -> A) n i :
  i < n -> nth_error (map f (seq 0 n)) i = Some (f i).
Proof.
  intros Hi. rewrite nth_error_map.
  rewrite (nth_error_nth' _ 0) by (rewrite length_seq; exact Hi).
  rewrite seq_nth by exact Hi. reflexivity.
Qed.

(** C7: a trajectory of N steps whose approach finds contact and whose
    tactile reads all succeed yields exactly N records, under the keys
    step_000, step_001, ... in execution order (the prefix step_ and the
    index in three decimal digits, zeros kept, for every index below
    1000), and the record under the key of index i carries step_index i
    (with the trajectory name and the commanded displacement of step i). *)
Theorem execute_trajectory_step_records
        (fuel : nat) (name : string) (steps : list Step) (s : State)
        (a m p : Q) (n : nat) :
  dict_get "approach_speed" (config s) = Some a ->
  dict_get "max_force" (config s) = Some m ->
  dict_get "press_speed" (config s) = Some p ->
  descent_finds (ati_feed (env s)) (ati_reads s) m (cont_th s) n = true ->
  n < fuel ->
  (forall i, i < List.length steps ->
             tactile_feed (env s) (tactile_reads s + i) <> None) ->
  exists recs s',
    _execute_trajectory fuel name steps s = Ret recs s' /\
    List.length recs = List.length steps /\
    dict_keys recs = map step_key_of (seq 0 (List.length steps)) /\
    (forall i, i < List.length steps -> i < 1000 ->
       nth_error (dict_keys recs) i = Some (step_key_text i)) /\
    forall i step, nth_error steps i = Some step ->
      exists r md,
        dict_get (step_key_of i) recs = Some r /\
        metadata r = Some md /\
        step_index md = i /\
        trajectory md = name /\
        commanded_delta_mm md = (step_x step, step_y step, step_z step).
Proof.
  intros Ha Hm Hp Hd Hlt Hfeed.
  unfold _execute_trajectory.
  destruct steps as [|st0 steps0] eqn:Esteps.
  { exists [], s. cbn. repeat split; auto.
    - intros i Hi. lia.
    - intros i st H. now destruct i. }
  rewrite <- Esteps in *. replace (truthy steps) with true by now subst.
  cbn [negb]. unfold bind at 1, log, emit, modify, bind at 1.
  unfold bind at 1. unfold move_to_safe_height at 1. run_monad.
  cbn -[move_to_contact steps_loop Qplus].
  match goal with |- context [move_to_contact fuel ?s1] =>
    destruct (move_to_contact_finds fuel s1 a m p n) as (s2 & Hrun & Hf & _);
      [exact Ha | exact Hm | exact Hp | exact Hd | exact Hlt |]
  end.
  rewrite Hrun. cbn -[steps_loop Qplus].
  match goal with |- context [steps_loop name 0 steps [] ?s3] =>
    destruct (steps_loop_runs name steps [] s3) as (rs & s4 & Hloop & Hlen & Hrec & _)
  end.
  { intros i Hi. cbn. replace (env s2) with (env s) by frame_tac.
    replace (tactile_reads s2) with (tactile_reads s) by frame_tac.
    now apply Hfeed. }
  cbn [List.length app] in Hloop. change (keyed []) with (@nil (string * StepRecord)) in Hloop.
  rewrite Hloop. cbn -[Qplus].
  eexists. eexists. split; [reflexivity|].
  split; [rewrite keyed_length; exact Hlen|].
  split; [rewrite keyed_keys, Hlen; reflexivity|].
  split.
  { intros i Hi Hk. rewrite keyed_keys, Hlen, nth_error_map_seq by exact Hi.
    now rewrite step_key_of_text. }
  intros i st Hi. destruct (Hrec i st Hi) as (r & Hr & Hmd).
  unfold record_of in Hmd. cbn in Hmd.
  exists r. eexists. split; [now apply keyed_get|].
  split; [exact Hmd|]. cbn. auto.
Qed.

(** ** Merging into the storage file *)

Lemma add_events_nil s : add_events [] s = s.
Proof. destruct s. unfold add_events, set_trace. cbn. now rewrite app_nil_r. Qed.

Lemma add_events_app a b s : add_events b (add_events a s) = add_events (a ++ b) s.
Proof. unfold add_events, set_trace. cbn. now rewrite app_assoc. Qed.

Lemma dict_set_same_value {V : Type} k (v : V) d :
  dict_get k d = Some v -> dict_set k v d = d.
Proof.
  induction d as [|[k' v'] d IH]; simpl; [discriminate|].
  destruct (String.eqb k k') eqn:E.
  - now intros [= ->].
  - intros H. now rewrite IH.
Qed.

Lemma dict_get_setdefault_same {V : Type} k (v : V) d :
  dict_get k (dict_setdefault k v d) = Some (dict_get_default k v d).
Proof.
  rewrite dict_get_setdefault. unfold dict_get_default.
  destruct (dict_get k d); [reflexivity | now rewrite String.eqb_refl].
Qed.

Lemma merge_steps_cons k v rest tr :
  merge_steps ((k, v) :: rest) tr = merge_steps rest (dict_set k v tr).
Proof. reflexivity. Qed.

Lemma merge_trajs_cons t steps rest ob :
  merge_trajs ((t, steps) :: rest) ob = merge_trajs rest (merge_trajs [(t, steps)] ob).
Proof. reflexivity. Qed.

Lemma merge_objects_cons o od rest st :
  merge_objects ((o, od) :: rest) st = merge_objects rest (merge_objects [(o, od)] st).
Proof. reflexivity. Qed.

Lemma save_steps_runs obj traj items :
  forall (storage : Tree) (ob : ObjData) (tr : TrajData) s,
  dict_get obj storage = Some ob ->
  dict_get traj ob = Some tr ->
  save_steps obj traj items storage s =
  Ret (dict_set obj (dict_set traj (merge_steps items tr) ob) storage)
      (add_events (warn_steps obj traj items tr) s).
Proof.
  induction items as [|[k v] rest IH]; intros storage ob tr s Hob Htr.
  - cbn. rewrite add_events_nil.
    rewrite (dict_set_same_value traj tr ob Htr).
    now rewrite (dict_set_same_value obj ob storage Hob).
  - cbn [save_steps warn_steps]. rewrite merge_steps_cons.
    unfold bind at 1. unfold subscript at 1. rewrite Hob. cbn [ret].
    unfold bind at 1. unfold subscript at 1. rewrite Htr. cbn [ret].
    unfold bind at 1.
    assert (Hnext : forall s1,
      save_steps obj traj rest
        (dict_set obj (dict_set traj (dict_set k v tr) ob) storage) s1 =
      Ret (dict_set obj (dict_set traj (merge_steps rest (dict_set k v tr)) ob) storage)
          (add_events (warn_steps obj traj rest (dict_set k v tr)) s1)).
    { intros s1.
      rewrite (IH _ (dict_set traj (dict_set k v tr) ob) (dict_set k v tr) s1).
      - now rewrite !dict_set_set.
      - apply dict_get_set_same.
      - apply dict_get_set_same. }
    destruct (dict_mem k tr).
    + unfold log, emit, modify. rewrite Hnext.
      now rewrite <- add_events_app.
    + unfold ret. now rewrite Hnext.
Qed.

Lemma save_trajs_runs obj items : forall (storage : Tree) (ob : ObjData) s,
  dict_get obj storage = Some ob ->
  save_trajs obj items storage s =
  Ret (dict_set obj (merge_trajs items ob) storage)
      (add_events (warn_trajs obj items ob) s).
Proof.
  induction items as [|[t steps] rest IH]; intros storage ob s Hob.
  - cbn. rewrite add_events_nil.
    now rewrite (dict_set_same_value obj ob storage Hob).
  - cbn [save_trajs warn_trajs]. rewrite merge_trajs_cons.
    unfold bind at 1. unfold subscript at 1. rewrite Hob. cbn [ret].
    unfold bind at 1.
    rewrite (save_steps_runs obj t steps _ (dict_setdefault t [] ob)
               (dict_get_default t [] ob)).
    2: apply dict_get_set_same.
    2: apply dict_get_setdefault_same.
    rewrite dict_set_set.
    rewrite (IH _ (merge_trajs [(t, steps)] ob)).
    2: apply dict_get_set_same.
    rewrite dict_set_set. now rewrite add_events_app.
Qed.

Lemma save_objects_runs items : forall (storage : Tree) s,
  save_objects items storage s =
  Ret (merge_objects items storage) (add_events (warn_objects items storage) s).
Proof.
  induction items as [|[o od] rest IH]; intros storage s.
  - cbn. now rewrite add_events_nil.
  - cbn [save_objects warn_objects]. rewrite merge_objects_cons.
    unfold bind at 1.
    rewrite (save_trajs_runs o od _ (dict_get_default o [] storage)).
    2: apply dict_get_setdefault_same.
    rewrite IH. now rewrite add_events_app.
Qed.

Lemma merge_steps_get items : forall tr k,
  dict_wf items ->
  dict_get k (merge_steps items tr) =
  match dict_get k items with Some v => Some v | None => dict_get k tr end.
Proof.
  induction items as [|[k0 v0] rest IH]; intros tr k Hwf; [reflexivity|].
  rewrite merge_steps_cons, IH by (eapply dict_wf_tail; eauto).
  cbn [dict_get]. destruct (String.eqb_spec k k0) as [->|Hne].
  - rewrite (dict_wf_head_fresh _ _ _ Hwf). apply dict_get_set_same.
  - rewrite dict_get_set_other by congruence. reflexivity.
Qed.

Lemma merge_trajs_one_get t steps ob t' :
  dict_get t' (merge_trajs [(t, steps)] ob) =
  if String.eqb t' t then Some (merge_steps steps (dict_get_default t [] ob))
  else dict_get t' ob.
Proof.
  unfold merge_trajs. cbn [fold_left fst snd].
  rewrite dict_get_set, dict_get_setdefault.
  destruct (String.eqb t' t); [reflexivity | now destruct (dict_get t' ob)].
Qed.

Lemma merge_trajs_get items : forall ob t,
  dict_wf items ->
  dict_get t (merge_trajs items ob) =
  match dict_get t items with
  | Some steps => Some (merge_steps steps (dict_get_default t [] ob))
  | None => dict_get t ob
  end.
Proof.
  induction items as [|[t0 s0] rest IH]; intros ob t Hwf; [reflexivity|].
  rewrite merge_trajs_cons, IH by (eapply dict_wf_tail; eauto).
  cbn [dict_get]. destruct (String.eqb_spec t t0) as [->|Hne].
  - rewrite (dict_wf_head_fresh _ _ _ Hwf).
    rewrite merge_trajs_one_get. now rewrite String.eqb_refl.
  - unfold dict_get_default. rewrite !merge_trajs_one_get.
    apply String.eqb_neq in Hne. now rewrite Hne.
Qed.

Lemma merge_objects_one_get o od st o' :
  dict_get o' (merge_objects [(o, od)] st) =
  if String.eqb o' o then Some (merge_trajs od (dict_get_default o [] st))
  else dict_get o' st.
Proof.
  unfold merge_objects. cbn [fold_left fst snd].
  rewrite dict_get_set, dict_get_setdefault.
  destruct (String.eqb o' o); [reflexivity | now destruct (dict_get o' st)].
Qed.

Lemma merge_objects_get items : forall st o,
  dict_wf items ->
  dict_get o (merge_objects items st) =
  match dict_get o items with
  | Some od => Some (merge_trajs od (dict_get_default o [] st))
  | None => dict_get o st
  end.
Proof.
  induction items as [|[o0 od0] rest IH]; intros st o Hwf; [reflexivity|].
  rewrite merge_objects_cons, IH by (eapply dict_wf_tail; eauto).
  cbn [dict_get]. destruct (String.eqb_spec o o0) as [->|Hne].
  - rewrite (dict_wf_head_fresh _ _ _ Hwf).
    rewrite merge_objects_one_get. now rewrite String.eqb_refl.
  - unfold dict_get_default. rewrite !merge_objects_one_get.
    apply String.eqb_neq in Hne. now rewrite Hne.
Qed.


Lemma warn_steps_In obj traj items : forall tr e,
  dict_wf items ->
  (In e (warn_steps obj traj items tr) <->
   exists k, e = overwrite obj traj k /\
             dict_get k tr <> None /\ dict_get k items <> None).
Proof.
  induction items as [|[k0 v0] rest IH]; intros tr e Hwf.
  - cbn. split; [tauto | intros (k & _ & _ & H); congruence].
  - cbn [warn_steps]. rewrite in_app_iff, IH by (eapply dict_wf_tail; eauto).
    pose proof (dict_wf_head_fresh _ _ _ Hwf) as Hfresh.
    split.
    + intros [Hhd | (k & -> & Htr & Hrest)].
      * unfold dict_mem in Hhd. destruct (dict_get k0 tr) eqn:E; [|contradiction].
        destruct Hhd as [<-|[]]. exists k0. split; [reflexivity|].
        split; [congruence|]. cbn. rewrite String.eqb_refl. discriminate.
      * exists k. split; [reflexivity|].
        destruct (String.eqb_spec k k0) as [->|Hne]; [congruence|].
        rewrite dict_get_set_other in Htr by congruence.
        split; [exact Htr|]. cbn.
        apply String.eqb_neq in Hne. now rewrite Hne.
    + intros (k & -> & Htr & Hit). cbn in Hit.
      destruct (String.eqb_spec k k0) as [->|Hne].
      * left. unfold dict_mem. destruct (dict_get k0 tr); [now left | congruence].
      * right. exists k. split; [reflexivity|].
        rewrite dict_get_set_other by congruence. auto.
Qed.

Lemma traj_get_merge_one_other t steps ob t' k :
  t' <> t -> traj_get (merge_trajs [(t, steps)] ob) t' k = traj_get ob t' k.
Proof.
  intros Hne. unfold traj_get. rewrite merge_trajs_one_get.
  apply String.eqb_neq in Hne. now rewrite Hne.
Qed.

Lemma warn_trajs_In obj items : forall ob e,
  dict_wf items ->
  Forall (fun te => dict_wf (snd te)) items ->
  (In e (warn_trajs obj items ob) <->
   exists t k, e = overwrite obj t k /\
               traj_get ob t k <> None /\ traj_get items t k <> None).
Proof.
  induction items as [|[t0 s0] rest IH]; intros ob e Hwf Hall.
  - cbn. split; [tauto | intros (t & k & _ & _ & H); now cbn in H].
  - cbn [warn_trajs]. inversion Hall as [|? ? Hs0 Hrest]; subst. cbn in Hs0.
    rewrite in_app_iff, warn_steps_In, IH by (eauto using dict_wf_tail).
    pose proof (dict_wf_head_fresh _ _ _ Hwf) as Hfresh.
    split.
    + intros [(k & -> & Hold & Hnew) | (t & k & -> & Hold & Hnew)].
      * exists t0, k. split; [reflexivity|]. unfold traj_get, dict_get_default in *.
        cbn [dict_get]. rewrite String.eqb_refl.
        destruct (dict_get t0 ob); [auto | cbn in Hold; congruence].
      * exists t, k. split; [reflexivity|].
        assert (Hne : t <> t0).
        { intros ->. unfold traj_get in Hnew. now rewrite Hfresh in Hnew. }
        rewrite traj_get_merge_one_other in Hold by exact Hne.
        split; [exact Hold|]. unfold traj_get in *. cbn [dict_get].
        apply String.eqb_neq in Hne. now rewrite Hne.
    + intros (t & k & -> & Hold & Hnew).
      unfold traj_get in Hnew. cbn [dict_get] in Hnew.
      destruct (String.eqb_spec t t0) as [->|Hne].
      * left. exists k. split; [reflexivity|].
        unfold traj_get, dict_get_default in *.
        destruct (dict_get t0 ob); [auto | congruence].
      * right. exists t, k. split; [reflexivity|].
        rewrite traj_get_merge_one_other by exact Hne. auto.
Qed.

Lemma tree_get_merge_one_other o od st o' t k :
  o' <> o -> tree_get (merge_objects [(o, od)] st) o' t k = tree_get st o' t k.
Proof.
  intros Hne. unfold tree_get. rewrite merge_objects_one_get.
  apply String.eqb_neq in Hne. now rewrite Hne.
Qed.

Lemma tree_get_traj_get (t : Tree) o tr k :
  tree_get t o tr k =
  match dict_get o t with Some ob => traj_get ob tr k | None => None end.
Proof. reflexivity. Qed.

Lemma warn_objects_In items : forall st e,
  tree_wf items ->
  (In e (warn_objects items st) <->
   exists o t k, e = overwrite o t k /\
                 tree_get st o t k <> None /\ tree_get items o t k <> None).
Proof.
  induction items as [|[o0 od0] rest IH]; intros st e [Hwf Hall].
  - cbn. split; [tauto | intros (o & t & k & _ & _ & H); now cbn in H].
  - cbn [warn_objects]. inversion Hall as [|? ? [Hod0 Hsteps0] Hrest]; subst.
    cbn in Hod0, Hsteps0.
    rewrite in_app_iff, warn_trajs_In, IH; auto.
    2:{ split; [eapply dict_wf_tail; eauto | exact Hrest]. }
    pose proof (dict_wf_head_fresh _ _ _ Hwf) as Hfresh.
    split.
    + intros [(t & k & -> & Hold & Hnew) | (o & t & k & -> & Hold & Hnew)].
      * exists o0, t, k. split; [reflexivity|].
        rewrite !tree_get_traj_get. cbn [dict_get]. rewrite String.eqb_refl.
        unfold dict_get_default in Hold.
        destruct (dict_get o0 st); [auto | cbn in Hold; congruence].
      * exists o, t, k. split; [reflexivity|].
        assert (Hne : o <> o0).
        { intros ->. rewrite tree_get_traj_get in Hnew. now rewrite Hfresh in Hnew. }
        rewrite tree_get_merge_one_other in Hold by exact Hne.
        split; [exact Hold|]. rewrite tree_get_traj_get in *. cbn [dict_get].
        apply String.eqb_neq in Hne. now rewrite Hne.
    + intros (o & t & k & -> & Hold & Hnew).
      rewrite tree_get_traj_get in Hnew. cbn [dict_get] in Hnew.
      destruct (String.eqb_spec o o0) as [->|Hne].
      * left. exists t, k. split; [reflexivity|].
        rewrite tree_get_traj_get in Hold. unfold dict_get_default.
        destruct (dict_get o0 st); [auto | congruence].
      * right. exists o, t, k. split; [reflexivity|].
        rewrite tree_get_merge_one_other by exact Hne.
        rewrite tree_get_traj_get. auto.
Qed.

Lemma overwrite_inj o t k o' t' k' :
  overwrite o t k = overwrite o' t' k' -> o = o' /\ t = t' /\ k = k'.
Proof. unfold overwrite. intros [= -> -> ->]. auto. Qed.

Lemma traj_get_merge items ob t k :
  dict_wf items ->
  Forall (fun te => dict_wf (snd te)) items ->
  traj_get (merge_trajs items ob) t k =
  match traj_get items t k with Some v => Some v | None => traj_get ob t k end.
Proof.
  intros Hwf Hall. unfold traj_get. rewrite merge_trajs_get by exact Hwf.
  destruct (dict_get t items) as [steps|] eqn:E; [|reflexivity].
  apply dict_get_In in E. rewrite Forall_forall in Hall.
  rewrite merge_steps_get by exact (Hall _ E).
  unfold dict_get_default.
  destruct (dict_get k steps); [reflexivity|].
  now destruct (dict_get t ob).
Qed.

Lemma tree_get_merge items st o t k :
  tree_wf items ->
  tree_get (merge_objects items st) o t k =
  match tree_get items o t k with Some v => Some v | None => tree_get st o t k end.
Proof.
  intros [Hwf Hall]. rewrite !tree_get_traj_get.
  rewrite merge_objects_get by exact Hwf.
  destruct (dict_get o items) as [od|] eqn:E; [|reflexivity].
  apply dict_get_In in E. rewrite Forall_forall in Hall.
  destruct (Hall _ E) as [Hod Hsteps]. cbn in Hod, Hsteps.
  rewrite traj_get_merge by assumption.
  unfold dict_get_default.
  destruct (traj_get od t k); [reflexivity|].
  now destruct (dict_get o st).
Qed.

Lemma load_storage_runs s :
  exists evs, _load_storage s = Ret (loaded (storage_file s)) (add_events evs s) /\
              forall o t k, ~ In (overwrite o t k) evs.
Proof.
  unfold _load_storage, bind, get.
  destruct (storage_file s) as [| |[t|]]; cbn.
  - exists []. rewrite add_events_nil. split; [reflexivity | intros ? ? ? []].
  - exists [Log ERROR MsgStorageReadFailed]. split; [reflexivity|].
    intros o t k [H|[]]. discriminate.
  - exists []. rewrite add_events_nil. split; [reflexivity | intros ? ? ? []].
  - exists []. rewrite add_events_nil. split; [reflexivity | intros ? ? ? []].
Qed.

(** C8: saving merges the session tree into the loaded store as a union
    over (object, trajectory, step) keys.  A key of the session tree takes
    the session's record; any other key keeps the record the store had
    (so disjoint trees give their union and siblings of an overwritten key
    are untouched); and the overwrite warning for a path is logged exactly
    when that path is in both trees. *)
Theorem save_calibration_data_deep_union (s : State) :
  calibration_data s <> [] ->
  tree_wf (calibration_data s) ->
  exists merged evs s',
    save_calibration_data s = Ret tt s' /\
    storage_file s' = Content (PickledTree merged) /\
    trace s' = trace s ++ evs /\
    In (StorageWrite merged) evs /\
    (forall o t k,
       tree_get merged o t k =
       match tree_get (calibration_data s) o t k with
       | Some v => Some v
       | None => tree_get (loaded (storage_file s)) o t k
       end) /\
    (forall o t k,
       In (Log WARNING (MsgOverwrite o t k)) evs <->
       tree_get (loaded (storage_file s)) o t k <> None /\
       tree_get (calibration_data s) o t k <> None).
Proof.
  intros Hne Hwf.
  destruct (load_storage_runs s) as (ev0 & Hload & Hev0).
  set (new := calibration_data s) in *.
  set (old := loaded (storage_file s)) in *.
  exists (merge_objects new old).
  exists (ev0 ++ warn_objects new old
          ++ [StorageWrite (merge_objects new old); Log INFO MsgStorageWritten;
              Log INFO (MsgStorageUpdated (dict_keys new))]).
  eexists. split.
  { unfold save_calibration_data. unfold bind at 1, get at 1. fold new.
    destruct new as [|x new'] eqn:En; [congruence|]. cbn [truthy negb].
    rewrite <- En. unfold bind at 1. rewrite Hload.
    unfold bind at 1. rewrite save_objects_runs.
    unfold _save_storage, log, emit, modify, bind. reflexivity. }
  cbn. split; [reflexivity|].
  split; [now rewrite <- !app_assoc|].
  split; [rewrite !in_app_iff; cbn; auto|].
  split; [intros o t k; apply tree_get_merge; exact Hwf|].
  intros o t k. fold (overwrite o t k). rewrite !in_app_iff, warn_objects_In by exact Hwf.
  split.
  - intros [H|[(o' & t' & k' & Heq & Hold & Hnew)|H]].
    + now apply Hev0 in H.
    + apply overwrite_inj in Heq. destruct Heq as (-> & -> & ->). auto.
    + cbn in H. unfold overwrite in H. intuition discriminate.
  - intros [Hold Hnew]. right. left. exists o, t, k. auto.
Qed.

(** ** The session loop *)

Lemma trajectories_loop_never_raises fuel items : forall acc s e s',
  trajectories_loop fuel items acc s <> Exc e s'.
Proof.
  induction items as [|[name steps] rest IH]; intros acc s e s'.
  - discriminate.
  - cbn [trajectories_loop]. unfold bind at 1, try_except.
    unfold bind at 1.
    destruct (_execute_trajectory fuel name steps s) as [td s1|e1 s1|].
    + unfold ret. apply IH.
    + unfold log, emit, modify, bind, ret. apply IH.
    + discriminate.
Qed.

Lemma collect_never_raises fuel s e s' :
  collect_calibration_data fuel s <> Exc e s'.
Proof.
  unfold collect_calibration_data, log, emit, modify, bind, get, ret.
  destruct (truthy _); cbn [negb]; [|discriminate].
  match goal with |- context [trajectories_loop fuel ?it ?acc ?s1] =>
    pose proof (trajectories_loop_never_raises fuel it acc s1) as H;
    destruct (trajectories_loop fuel it acc s1) end;
    [discriminate | exfalso; eapply H; reflexivity | discriminate].
Qed.

(** An over-force at the first reading of the descent leaves
    [_execute_trajectory] as the exception it is. *)
Lemma execute_trajectory_over_force fuel name steps s a m :
  steps <> [] ->
  dict_get "approach_speed" (config s) = Some a ->
  dict_get "max_force" (config s) = Some m ->
  Qle_bool (snd (ati_feed (env s) (ati_reads s))) m = true ->
  exists s1, _execute_trajectory (S fuel) name steps s =
             Exc (ForceTooLarge (snd (ati_feed (env s) (ati_reads s)))) s1.
Proof.
  intros Hne Ha Hm Hover. unfold _execute_trajectory.
  destruct steps as [|st0 steps0]; [congruence|]. cbn [truthy negb].
  unfold move_to_contact. cbn [seek_loop]. run_monad.
  cbn -[Qle_bool Qplus steps_loop seek_loop].
  destruct (z_cont s); cbn -[Qle_bool Qplus steps_loop seek_loop];
    rewrite Ha; cbn -[Qle_bool Qplus steps_loop seek_loop];
    rewrite Hm; cbn -[Qle_bool Qplus steps_loop seek_loop];
    rewrite Hover; eexists; reflexivity.
Qed.

(** C1 at its failing input: a session of the trajectories a and b whose
    first force reading is -2 N, with the limit at -1 N.  The descent of a
    logs the over-force error and raises it; the handler around the
    trajectory catches it and the session goes on: for trajectory b the
    arm is sent to the approach pose again and the descent is repeated
    (four motion commands follow the error), b is recorded, nothing is
    recorded for a, and [collect_calibration_data] returns normally. *)
Theorem over_force_is_followed_by_next_descent :
  dict_get "max_force" (config session_two) = Some (-1)%Q /\
  snd (ati_feed (env session_two) (ati_reads session_two)) = (-2)%Q /\
  (exists s1, _execute_trajectory 5 "a" [push] session_two
              = Exc (ForceTooLarge (-2)) s1) /\
  exists tree s' before after,
    collect_calibration_data 5 session_two = Ret tree s' /\
    trace s' = before ++ Log ERROR (MsgForceTooLarge (-2))
                      :: Log ERROR (MsgTrajectoryFailed "a" (ForceTooLarge (-2)))
                      :: Log INFO (MsgTrajectoryStart "b" 1) :: after /\
    In (Log INFO MsgSeekStart) after /\
    List.length (filter is_motion after) = 4 /\
    tree_get tree "cube" "a" "step_000" = None /\
    tree_get tree "cube" "b" "step_000" <> None.
Proof.
  split; [vm_compute; reflexivity|].
  split; [vm_compute; reflexivity|].
  split; [eexists; vm_compute; reflexivity|].
  eexists. eexists.
  match goal with |- exists b a, ?r = Ret _ ?s /\ _ =>
    exists (firstn 22 (trace s)), (skipn 25 (trace s)) end.
  split; [vm_compute; reflexivity|].
  split; [vm_compute; reflexivity|].
  split; [vm_compute; tauto|].
  split; [vm_compute; reflexivity|].
  split; [vm_compute; reflexivity | vm_compute; discriminate].
Qed.

(** ** What the evaluations rest on *)

Lemma dict_set_not_nil {V : Type} k (v : V) d : dict_set k v d <> [].
Proof.
  destruct d as [|[k' v'] d]; cbn; [discriminate|].
  destruct (String.eqb k k'); discriminate.
Qed.

(** After a session the tree always has an entry for the object, so the
    emptiness test that guards saving does not fire. *)
Lemma collect_marks_object fuel s t s' :
  collect_calibration_data fuel s = Ret t s' -> calibration_data s' <> [].
Proof.
  unfold collect_calibration_data, log, emit, modify, bind, get, ret.
  destruct (truthy _); cbn [negb].
  - match goal with |- context [trajectories_loop fuel ?it ?acc ?s1] =>
      destruct (trajectories_loop fuel it acc s1) end; try discriminate.
    intros [= <- <-]. cbn. apply dict_set_not_nil.
  - intros [= <- <-]. cbn. apply dict_set_not_nil.
Qed.

(** Without the key approach_speed the descent does not start. *)
Lemma move_to_contact_needs_approach_speed fuel s :
  dict_get "approach_speed" (config s) = None ->
  exists s', move_to_contact fuel s = Exc (KeyError "approach_speed") s'.
Proof.
  intros H. unfold move_to_contact. run_monad. cbn -[seek_loop Qplus].
  destruct (z_cont s); cbn -[seek_loop Qplus]; rewrite H; eexists; reflexivity.
Qed.

(** ** Counting motion commands

    Rules for [grows], the lower bound on the number of motion commands a
    computation adds to the trace when it returns. *)

Lemma grows_ret {A : Type} (a : A) : grows 0 (ret a).
Proof. intros s. cbn. lia. Qed.

Lemma grows_get {A : Type} (f : State -> A) : grows 0 (get f).
Proof. intros s. cbn. lia. Qed.

Lemma grows_raise {A : Type} k (e : Exn) : grows k (@raise A e).
Proof. intros s. exact I. Qed.

Lemma grows_modify f : (forall s, trace (f s) = trace s) -> grows 0 (modify f).
Proof. intros H s. cbn. unfold motions. rewrite H. lia. Qed.

Lemma grows_emit e : grows (if is_motion e then 1 else 0) (emit e).
Proof.
  intros s. cbn. unfold motions. cbn [trace set_trace].
  rewrite filter_app, length_app. cbn. destruct (is_motion e); cbn; lia.
Qed.

Lemma grows_weaken {A : Type} k k' (m : M A) : grows k' m -> k <= k' -> grows k m.
Proof. intros H Hle s. specialize (H s). destruct (m s); auto. lia. Qed.

Lemma grows_bind {A B : Type} k1 k2 (m : M A) (f : A -> M B) :
  grows k1 m -> (forall a, grows k2 (f a)) -> grows (k1 + k2) (bind m f).
Proof.
  intros Hm Hf s. unfold bind. specialize (Hm s).
  destruct (m s) as [a s1| |]; auto.
  specialize (Hf a s1). destruct (f a s1); auto. lia.
Qed.

Lemma grows_try_except {A : Type} k (body : M A) (h : Exn -> M A) :
  grows k body -> (forall e, grows k (h e)) ->
  (forall s e s', body s = Exc e s' -> motions s <= motions s') ->
  grows k (try_except body h).
Proof.
  intros Hb Hh Hexc s. unfold try_except. specialize (Hb s).
  destruct (body s) as [a s1|e s1|] eqn:E; auto.
  specialize (Hh e s1). destruct (h e s1); auto.
  specialize (Hexc s e s1 E). lia.
Qed.

Lemma grows_log lvl msg : grows 0 (log lvl msg).
Proof. exact (grows_emit (Log lvl msg)). Qed.

Lemma grows_sleep t : grows 0 (sleep t).
Proof. exact (grows_emit (Sleep t)). Qed.

Lemma grows_set_velocity v w : grows 0 (set_velocity v w).
Proof. exact (grows_emit (SetVelocity v w)). Qed.

Lemma grows_moveCart x y z : grows 1 (moveCart x y z).
Proof.
  unfold moveCart. apply (grows_bind 1 0).
  - exact (grows_emit (MoveCart x y z)).
  - intros _. now apply grows_modify.
Qed.

Lemma grows_lift {A : Type} (r : result A) : grows 0 (lift r).
Proof. destruct r; [apply grows_raise | apply grows_ret]. Qed.

Lemma grows_load_trajectory_config : grows 0 _load_trajectory_config.
Proof.
  unfold _load_trajectory_config. apply (grows_bind 0 0); [apply grows_get|].
  intros e. destruct (traj_json e).
  - apply (grows_bind 0 0); [apply grows_log | intros; apply grows_ret].
  - apply (grows_bind 0 0); [apply grows_log | intros; apply grows_ret].
  - apply (grows_bind 0 0); [apply grows_lift|]. intros normalized.
    apply (grows_bind 0 0); [|intros; apply grows_ret].
    destruct (truthy normalized); [apply grows_ret | apply grows_log].
Qed.

Lemma grows_check_joint_limit : grows 0 _check_joint_limit.
Proof.
  unfold _check_joint_limit. apply (grows_bind 0 0); [apply grows_get|].
  intros e. cbv zeta.
  destruct (negb _); [eapply grows_weaken; [apply grows_emit | cbn; lia]|].
  destruct (negb _); [eapply grows_weaken; [apply grows_emit | cbn; lia]|].
  apply grows_ret.
Qed.

(** The constructor sends the robot to the fixed initial pose and then to
    [pose0]. *)
Lemma grows_init p obj : grows 2 (__init__ p obj).
Proof.
  unfold __init__.
  apply (grows_bind 0 2); [apply grows_get | intros e; cbv zeta].
  apply (grows_bind 0 2); [apply grows_load_trajectory_config | intros trajs].
  apply (grows_bind 0 2); [now apply grows_modify | intros _].
  apply (grows_bind 0 2); [apply grows_log | intros _].
  apply (grows_bind 0 2); [exact (grows_emit RobotInitialize) | intros _].
  apply (grows_bind 0 2); [exact (grows_emit (SetAcceleration _ _)) | intros _].
  apply (grows_bind 0 2); [apply grows_set_velocity | intros _].
  apply (grows_bind 1 1); [apply grows_moveCart | intros _].
  apply (grows_bind 0 1); [apply grows_check_joint_limit | intros _].
  apply (grows_bind 0 1); [apply grows_sleep | intros _].
  apply (grows_bind 1 0); [apply grows_moveCart | intros _].
  apply (grows_bind 0 0); [apply grows_sleep | intros _].
  apply (grows_bind 0 0); [apply grows_log | intros _].
  apply (grows_bind 0 0); [apply grows_log | intros _].
  apply (grows_bind 0 0); [apply grows_sleep | intros _].
  apply (grows_bind 0 0); [exact (grows_emit AtiTare) | intros _].
  exact (grows_emit TactileCreate).
Qed.

Lemma grows_move_to_safe_position : grows 1 move_to_safe_position.
Proof.
  unfold move_to_safe_position, move_to_xyz, get_cartesian.
  apply (grows_bind 0 1); [apply grows_set_velocity | intros _].
  apply (grows_bind 0 1); [apply grows_get | intros p0].
  apply (grows_bind 0 1); [apply grows_get | intros off; cbv zeta].
  apply (grows_bind 0 1); [apply grows_get | intros cp].
  apply (grows_bind 1 0); [apply grows_moveCart | intros _].
  apply grows_sleep.
Qed.

Lemma motions_add_events evs s : motions s <= motions (add_events evs s).
Proof.
  unfold motions, add_events. cbn [trace set_trace].
  rewrite filter_app, length_app. lia.
Qed.

Lemma grows_save_calibration_data : grows 0 save_calibration_data.
Proof.
  intros s. unfold save_calibration_data. unfold bind at 1, get at 1.
  destruct (truthy (calibration_data s)); cbn [negb].
  2:{ apply grows_log. }
  destruct (load_storage_runs s) as (ev0 & Hload & _).
  unfold bind at 1. rewrite Hload. unfold bind at 1. rewrite save_objects_runs.
  unfold _save_storage.
  match goal with |- context [add_events ?w (add_events ev0 s)] =>
    assert (H1 : motions s <= motions (add_events w (add_events ev0 s)))
      by (etransitivity; apply motions_add_events);
    set (s1 := add_events w (add_events ev0 s)) in * end.
  clearbody s1.
  match goal with |- match ?m s1 with _ => _ end =>
    set (rest := m); assert (Hm : grows 0 rest); [subst rest|] end.
  { apply (grows_bind 0 0); [|intros; apply grows_log].
    apply (grows_bind 0 0); [now apply grows_modify | intros _].
    apply (grows_bind 0 0); [exact (grows_emit (StorageWrite _)) | intros; apply grows_log]. }
  specialize (Hm s1). destruct (rest s1); auto. lia.
Qed.

(** Teardown raises the arm to the safe position. *)
Lemma grows_cleanup : grows 1 cleanup.
Proof.
  unfold cleanup.
  apply (grows_bind 0 1); [apply grows_log | intros _].
  apply (grows_bind 1 0); [apply grows_move_to_safe_position | intros _].
  apply (grows_bind 0 0); [apply grows_get | intros cd].
  apply (grows_bind 0 0).
  { destruct (truthy cd); [apply grows_save_calibration_data | apply grows_ret]. }
  intros _.
  apply (grows_bind 0 0).
  { apply grows_try_except; [exact (grows_emit TactileRelease) | intros; apply grows_ret|].
    intros s e s' H. discriminate. }
  intros _.
  apply (grows_bind 0 0); [|intros; apply grows_log].
  apply grows_try_except; [|intros; apply grows_ret|].
  - apply (grows_bind 0 0); [apply grows_sleep | intros; exact (grows_emit MotorOff)].
  - intros s e s' H. discriminate.
Qed.

(** Whatever the environment, a dry run that gets past the test on the
    object name has sent at least three motion commands by the time it
    returns: two from the constructor and one from the teardown. *)
Lemma dry_run_always_moves fuel args s0 s' :
  arg_dry_run args = true ->
  main fuel args s0 = Ret tt s' ->
  In (Log INFO MsgDryRun) (trace s') ->
  ~ In (Log INFO MsgDryRun) (trace s0) ->
  motions s0 + 3 <= motions s'.
Proof.
  intros Hdry Hrun Hin Hnot. revert Hrun.
  unfold main. unfold bind at 1, get at 1.
  destruct (_ && _).
  { unfold log, emit, modify. intros [= <-]. cbn [trace set_trace] in Hin.
    apply in_app_or in Hin. destruct Hin as [Hin|[Hin|[]]]; [tauto | discriminate]. }
  rewrite Hdry. intros Hrun.
  match type of Hrun with ?m s0 = _ => assert (Hg : grows 3 m) end.
  { apply (grows_bind 2 1); [apply grows_init | intros _].
    apply (grows_bind 0 1); [apply grows_log | intros _].
    apply (grows_bind 0 1); [apply grows_get | intros tc].
    apply (grows_bind 0 1); [apply grows_log | intros _].
    apply grows_cleanup. }
  specialize (Hg s0). rewrite Hrun in Hg. exact Hg.
Qed.

(** ** Evaluations *)

(** Every reading taken for the safety check of a finished descent is
    above the limit: these are the reads of even rank. *)
Lemma safety_reads_above_limit fuel : forall s s' b m,
  seek_loop fuel false s = Ret b s' ->
  dict_get "max_force" (config s) = Some m ->
  forall j, ati_reads s + 2 * j < ati_reads s' ->
            Qle_bool (snd (ati_feed (env s) (ati_reads s + 2 * j))) m = false.
Proof.
  induction fuel as [|fuel IH]; intros s s' b m Hrun Hm j Hj; [discriminate|].
  cbn [seek_loop] in Hrun. revert Hrun. run_monad.
  cbn -[seek_loop Qle_bool Qplus]. rewrite Hm. cbn -[seek_loop Qle_bool Qplus].
  destruct (Qle_bool _ m) eqn:Hsafe; cbn -[seek_loop Qle_bool Qplus]; [discriminate|].
  destruct (Qle_bool _ (cont_th s)); cbn -[seek_loop Qle_bool Qplus].
  - intros [= <- <-]. cbn in Hj.
    assert (j = 0) by lia. subst j. now rewrite Nat.add_0_r.
  - intros Hrun. destruct j as [|j]; [now rewrite Nat.add_0_r|].
    assert (H : S (S (ati_reads s)) + 2 * j < ati_reads s' ->
                Qle_bool (snd (ati_feed (env s) (S (S (ati_reads s)) + 2 * j))) m = false)
      by exact (IH _ s' b m Hrun Hm j).
    match goal with |- Qle_bool (snd (ati_feed _ ?k)) _ = _ =>
      replace k with (S (S (ati_reads s)) + 2 * j) by lia end.
    apply H. lia.
Qed.

(** C2 at its failing input: the first safety reading is 0 N and the
    contact reading that follows is -5 N, with the limit at -1 N and the
    contact threshold at -0.02 N.  The descent returns normally with a
    contact height recorded, although a force value read during the
    descent is beyond the limit. *)
Theorem contact_recorded_beyond_safety_limit :
  dict_get "max_force" (config session_spike) = Some (-1)%Q /\
  exists s',
    move_to_contact 3 session_spike = Ret tt s' /\
    z_cont s' <> None /\
    snd (ati_feed (env session_spike) 1) = (-5)%Q /\
    In (Log DEBUG (MsgAtiZ (-5))) (trace s') /\
    ~ all_reads_above (-1) session_spike s'.
Proof.
  split; [vm_compute; reflexivity|].
  eexists. split; [vm_compute; reflexivity|].
  split; [vm_compute; discriminate|].
  split; [vm_compute; reflexivity|].
  split; [vm_compute; tauto|].
  intros H. specialize (H 1). vm_compute in H.
  assert (Hf : true = false) by (apply H; split; repeat constructor).
  discriminate.
Qed.

(** C3 at its failing inputs: a real run for object cube, once without a
    trajectory file and once with every trajectory failing on its first
    tactile read.  The session produces no record, and the storage file,
    absent before, is written with an empty entry for the object. *)
Theorem session_without_records_is_written :
  (exists s',
     run_without_library = Ret tt s' /\
     (forall o t k, tree_get (calibration_data s') o t k = None) /\
     filter is_sampling (trace s') = [] /\
     filter is_write (trace s') = [StorageWrite [("cube", [])]] /\
     storage_file s' = Content (PickledTree [("cube", [])])) /\
  (exists s',
     run_all_failed = Ret tt s' /\
     (forall o t k, tree_get (calibration_data s') o t k = None) /\
     In (Log ERROR (MsgTrajectoryFailed "push" DeviceError)) (trace s') /\
     filter is_write (trace s') = [StorageWrite [("cube", [])]] /\
     storage_file s' = Content (PickledTree [("cube", [])])).
Proof.
  assert (Hnone : forall o t k, tree_get [("cube", [])] o t k = None).
  { intros o t k. unfold tree_get. cbn [dict_get].
    destruct (String.eqb o "cube"); reflexivity. }
  split.
  - eexists. split; [vm_compute; reflexivity|].
    split; [exact Hnone|].
    repeat split; vm_compute; reflexivity.
  - eexists. split; [vm_compute; reflexivity|].
    split; [exact Hnone|].
    split; [vm_compute; tauto|].
    repeat split; vm_compute; reflexivity.
Qed.

(** C4 at its failing input: a dry run for object cube.  The collector is
    constructed before the dry-run test and torn down after it, and both
    command the robot: three Cartesian moves are sent.  No force or
    tactile value is read. *)
Theorem dry_run_commands_motion :
  exists s',
    run_dry = Ret tt s' /\
    In (Log INFO MsgDryRun) (trace s') /\
    List.length (filter is_motion (trace s')) = 3 /\
    filter is_sampling (trace s') = [] /\
    filter is_write (trace s') = [].
Proof.
  eexists. split; [vm_compute; reflexivity|].
  split; [vm_compute; tauto|].
  repeat split; vm_compute; reflexivity.
Qed.

(** C5, as the code has it: on an empty step list [_execute_trajectory]
    returns the empty mapping at once; the state is left as it was and no
    event is added: no command is sent to the robot and no sensor is read. *)
Theorem empty_trajectory_returns_at_once
        (fuel : nat) (name : string) (s : State) :
  _execute_trajectory fuel name [] s = Ret [] s /\
  new_events (_execute_trajectory fuel name []) s = [].
Proof.
  split; [reflexivity|].
  unfold new_events, events_of. cbn. apply skipn_all.
Qed.

(** C5 as stated fails: on an empty step list no motion at all is
    commanded, to safe height or to contact. *)
Lemma empty_trajectory_commands_no_motion :
  _execute_trajectory 5 "push" [] session_contact = Ret [] session_contact /\
  ~ exists ev,
      In ev (new_events (_execute_trajectory 5 "push" []) session_contact) /\
      is_motion ev = true.
Proof.
  split; [reflexivity|].
  intros (ev & Hin & _).
  unfold new_events, events_of in Hin. cbn [_execute_trajectory truthy negb ret final_state] in Hin.
  rewrite skipn_all in Hin. exact Hin.
Qed.

(** C6 at its failing inputs: a configuration file that leaves out one of
    approach_speed, max_force, press_speed.  The options read with a
    default are set, but the descent raises a lookup error on the key that
    is left out. *)
Theorem speed_and_limit_keys_have_no_default :
  (exists s', move_to_contact 3 (session_without "approach_speed")
              = Exc (KeyError "approach_speed") s') /\
  (exists s', move_to_contact 3 (session_without "max_force")
              = Exc (KeyError "max_force") s') /\
  (exists s', move_to_contact 3 (session_without "press_speed")
              = Exc (KeyError "press_speed") s') /\
  cont_th (session_without "contact_threshold") = (- (5 # 100))%Q /\
  step_settle_time (session_without "step_settle_time") = (3 # 10)%Q /\
  safe_offset_mm (session_without "safe_offset_mm") = 1%Q /\
  frame_interval (session_without "frame_interval") = (1 # 10)%Q /\
  data_frames (session_without "data_frames") = 10%Z.
Proof.
  split; [eexists; vm_compute; reflexivity|].
  split; [eexists; vm_compute; reflexivity|].
  split; [eexists; vm_compute; reflexivity|].
  repeat split; vm_compute; reflexivity.
Qed.

(** ** The general statements at concrete sessions *)

(** The descent of a session that finds contact in its second iteration. *)
Lemma contact_not_found_unreachable_witness :
  dict_get "max_force" (config session_contact) = Some (-1)%Q /\
  (match seek_loop 5 false session_contact with
   | Ret is_contact s' => is_contact = true /\ z_cont s' <> None
   | Exc e _ => exists fz, e = ForceTooLarge fz
   | Timeout => True
   end /\
   forall s', move_to_contact 5 session_contact <> Exc ContactNotDetected s').
Proof.
  split; [vm_compute; reflexivity|].
  apply (contact_not_found_unreachable 5 session_contact (-1)).
  vm_compute. reflexivity.
Defined.

(** The trajectory push of two steps, executed in that session: the
    records are under step_000 and step_001, with step_index 0 and 1. *)
Lemma execute_trajectory_step_records_witness :
  exists recs s',
    _execute_trajectory 5 "push" [push; push] session_contact = Ret recs s' /\
    List.length recs = 2 /\
    dict_keys recs = ["step_000"; "step_001"] /\
    (forall i, i < 2 -> i < 1000 ->
       nth_error (dict_keys recs) i = Some (step_key_text i)) /\
    (exists r0 md0, dict_get "step_000" recs = Some r0 /\
                    metadata r0 = Some md0 /\ step_index md0 = 0) /\
    (exists r1 md1, dict_get "step_001" recs = Some r1 /\
                    metadata r1 = Some md1 /\ step_index md1 = 1) /\
    forall i step, nth_error [push; push] i = Some step ->
      exists r md,
        dict_get (step_key_of i) recs = Some r /\
        metadata r = Some md /\
        step_index md = i /\
        trajectory md = "push" /\
        commanded_delta_mm md = (step_x step, step_y step, step_z step).
Proof.
  destruct (execute_trajectory_step_records 5 "push" [push; push] session_contact
              1 (-1) 8 1)
    as (recs & s' & Hrun & Hlen & Hkeys & Htext & Hrec).
  - vm_compute. reflexivity.
  - vm_compute. reflexivity.
  - vm_compute. reflexivity.
  - vm_compute. reflexivity.
  - lia.
  - intros i _. vm_compute. discriminate.
  - exists recs, s'. split; [exact Hrun|]. split; [exact Hlen|].
    split; [exact Hkeys|]. split; [exact Htext|].
    split.
    { destruct (Hrec 0 push eq_refl) as (r & md & Hr & Hmd & Hi & _).
      exists r, md. split; [exact Hr|]. split; [exact Hmd | exact Hi]. }
    split.
    { destruct (Hrec 1 push eq_refl) as (r & md & Hr & Hmd & Hi & _).
      exists r, md. split; [exact Hr|]. split; [exact Hmd | exact Hi]. }
    exact Hrec.
Defined.

Lemma session_to_save_wf : tree_wf (calibration_data session_to_save).
Proof.
  cbn [calibration_data session_to_save set_storage_file set_calibration_data].
  unfold tree_wf, dict_wf. cbn.
  repeat constructor; cbn; tauto.
Defined.

(** Saving one record over a store of two: step_000 is overwritten,
    step_001 is kept. *)
Lemma save_calibration_data_deep_union_witness :
  exists merged evs s',
    save_calibration_data session_to_save = Ret tt s' /\
    storage_file s' = Content (PickledTree merged) /\
    trace s' = trace session_to_save ++ evs /\
    In (StorageWrite merged) evs /\
    (forall o t k,
       tree_get merged o t k =
       match tree_get (calibration_data session_to_save) o t k with
       | Some v => Some v
       | None => tree_get (loaded (storage_file session_to_save)) o t k
       end) /\
    (forall o t k,
       In (Log WARNING (MsgOverwrite o t k)) evs <->
       tree_get (loaded (storage_file session_to_save)) o t k <> None /\
       tree_get (calibration_data session_to_save) o t k <> None).
Proof.
  apply (save_calibration_data_deep_union session_to_save).
  - cbn. discriminate.
  - exact session_to_save_wf.
Defined.

(** * Further properties *)

(** ** The trajectory file *)

Section Loader.
Variable parse : string -> option Q.

Lemma Forall_snd_dict_set {V : Type} (P : V -> Prop) k v (d : dict V) :
  Forall (fun e => P (snd e)) d -> P v ->
  Forall (fun e => P (snd e)) (dict_set k v d).
Proof.
  intros Hd Hv. induction d as [|[k' v'] d IH]; cbn.
  - repeat constructor. exact Hv.
  - inversion Hd; subst. destruct (String.eqb k k'); constructor; auto.
Qed.

Lemma normalize_trajs_ok items : forall acc res,
  dict_wf acc -> Forall (fun te => snd te <> []) acc ->
  normalize_trajs parse items acc = inr res ->
  dict_wf res /\ Forall (fun te => snd te <> []) res.
Proof.
  induction items as [|[t payload] rest IH]; intros acc res Hwf Hne Hrun.
  - cbn in Hrun. injection Hrun as <-. auto.
  - cbn [normalize_trajs] in Hrun. unfold rbind in Hrun.
    destruct (normalize_payload parse payload) as [e|steps]; [discriminate|].
    destruct steps as [|st steps]; cbn [truthy] in Hrun.
    + eapply IH; eauto.
    + eapply IH; [| |exact Hrun].
      * now apply dict_wf_set.
      * apply (Forall_snd_dict_set (fun v => v <> [])); [exact Hne | discriminate].
Qed.

Lemma normalize_objects_ok items : forall acc res,
  library_ok acc ->
  normalize_objects parse items acc = inr res ->
  library_ok res.
Proof.
  induction items as [|[o payload] rest IH]; intros acc res Hok Hrun.
  - cbn in Hrun. injection Hrun as <-. exact Hok.
  - cbn [normalize_objects] in Hrun.
    destruct payload as [| | | | |traj_dict]; try (eapply IH; eassumption).
    unfold rbind in Hrun.
    destruct (normalize_trajs parse traj_dict []) as [e|obj_trajs] eqn:Et;
      [discriminate|].
    destruct (normalize_trajs_ok traj_dict [] obj_trajs) as [Hwf Hne];
      [constructor | constructor | exact Et |].
    destruct obj_trajs as [|x obj_trajs]; cbn [truthy] in Hrun.
    + eapply IH; eassumption.
    + eapply IH; [|exact Hrun]. destruct Hok as [Hwf0 Hall0]. split.
      * now apply dict_wf_set.
      * apply (Forall_snd_dict_set
                 (fun v => v <> [] /\ dict_wf v /\ Forall (fun te => snd te <> []) v));
          [exact Hall0|].
        split; [discriminate | auto].
Qed.

Lemma normalize_entries_app l1 : forall l2 r1,
  normalize_entries parse l1 = inr r1 ->
  normalize_entries parse (l1 ++ l2) =
  match normalize_entries parse l2 with
  | inl e => inl e
  | inr r2 => inr (r1 ++ r2)
  end.
Proof.
  induction l1 as [|x l1 IH]; intros l2 r1 H.
  - cbn in H. injection H as <-. cbn. now destruct (normalize_entries parse l2).
  - cbn [normalize_entries app] in *. unfold rbind in *.
    destruct (normalize_entry parse x) as [e|s]; [discriminate|].
    destruct (normalize_entries parse l1) as [e|r] eqn:E1; [discriminate|].
    injection H as <-. rewrite (IH l2 r eq_refl).
    destruct (normalize_entries parse l2); [reflexivity|].
    now destruct s.
Qed.

Lemma normalize_entry_malformed bad :
  is_step_entry bad = false -> normalize_entry parse bad = inr None.
Proof.
  destruct bad as [| | | |l|]; try reflexivity; [|discriminate].
  destruct l as [|a [|b [|c [|d l]]]]; try reflexivity. discriminate.
Qed.

Lemma normalize_entries_skip l1 : forall bad l2,
  is_step_entry bad = false ->
  normalize_entries parse (l1 ++ bad :: l2) = normalize_entries parse (l1 ++ l2).
Proof.
  induction l1 as [|x l1 IH]; intros bad l2 Hbad.
  - cbn [app normalize_entries]. rewrite (normalize_entry_malformed bad Hbad).
    unfold rbind. now destruct (normalize_entries parse l2).
  - cbn [app normalize_entries]. now rewrite IH.
Qed.

Lemma normalize_zip_numbers xs : forall ys zs,
  exists steps,
    normalize_zip parse (map JNum xs) (map JNum ys) (map JNum zs) = inr steps /\
    List.length steps =
      Nat.min (List.length xs) (Nat.min (List.length ys) (List.length zs)) /\
    forall i st, nth_error steps i = Some st ->
      nth_error xs i = Some (step_x st) /\
      nth_error ys i = Some (step_y st) /\
      nth_error zs i = Some (step_z st).
Proof.
  induction xs as [|x xs IH]; intros ys zs.
  - exists []. split; [reflexivity|]. split; [reflexivity|].
    intros i st H. now destruct i.
  - destruct ys as [|y ys].
    { exists []. split; [reflexivity|]. split; [cbn [List.length]; lia|].
      intros i st H. now destruct i. }
    destruct zs as [|z zs].
    { exists []. split; [reflexivity|]. split; [cbn [List.length]; lia|].
      intros i st H. now destruct i. }
    destruct (IH ys zs) as (steps & Hrun & Hlen & Hnth).
    exists (mkStep x y z :: steps). cbn [map normalize_zip py_float].
    unfold rbind. rewrite Hrun. split; [reflexivity|].
    split; [cbn [List.length]; lia|].
    intros i st Hi. destruct i as [|i]; cbn [nth_error] in *.
    + injection Hi as <-. auto.
    + now apply Hnth.
Qed.

End Loader.

(** X1: whatever the trajectory file holds, a library that is loaded has
    unique object names and unique trajectory names, no object without a
    trajectory and no trajectory without a step. *)
Theorem loaded_library_is_well_formed (parse : string -> option Q) (raw : json)
        (cfg : dict (dict (list Step))) :
  normalize_config parse raw = inr cfg -> library_ok cfg.
Proof.
  destruct raw as [| | | | |items]; try discriminate. cbn.
  apply normalize_objects_ok. split; constructor.
Qed.

Lemma loaded_library_is_well_formed_witness :
  normalize_config (fun _ => None) library_two
  = inr [("cube", [("a", [push]); ("b", [push])])] /\
  library_ok [("cube", [("a", [push]); ("b", [push])])].
Proof.
  split; [reflexivity|].
  apply (loaded_library_is_well_formed (fun _ => None) library_two). reflexivity.
Defined.

(** X2: in a list payload, an entry that is neither an object nor a list
    of exactly three values is skipped without any effect on the steps
    built from the other entries. *)
Theorem malformed_entry_is_skipped (parse : string -> option Q)
        (l1 l2 : list json) (bad : json) :
  is_step_entry bad = false ->
  normalize_payload parse (JList (l1 ++ bad :: l2)) =
  normalize_payload parse (JList (l1 ++ l2)).
Proof. intros H. cbn. now apply normalize_entries_skip. Qed.

Lemma malformed_entry_is_skipped_witness :
  is_step_entry (JList [JNum 1; JNum 2]) = false /\
  normalize_payload (fun _ => None)
    (JList ([JList [JNum 0; JNum 0; JNum (-1)]] ++ JList [JNum 1; JNum 2] :: [])) =
  normalize_payload (fun _ => None)
    (JList ([JList [JNum 0; JNum 0; JNum (-1)]] ++ [])).
Proof.
  split; [reflexivity|].
  apply (malformed_entry_is_skipped (fun _ => None)). reflexivity.
Defined.

(** X3: parallel sequences of numbers of different lengths are cut to the
    shortest one, silently: the steps are the triples at equal positions. *)
Theorem parallel_sequences_are_truncated (parse : string -> option Q)
        (xs ys zs : list Q) :
  exists steps,
    normalize_payload parse (parallel_of xs ys zs) = inr steps /\
    List.length steps =
      Nat.min (List.length xs) (Nat.min (List.length ys) (List.length zs)) /\
    forall i st, nth_error steps i = Some st ->
      nth_error xs i = Some (step_x st) /\
      nth_error ys i = Some (step_y st) /\
      nth_error zs i = Some (step_z st).
Proof.
  unfold parallel_of. cbn. apply normalize_zip_numbers.
Qed.

(** X4: in an object entry a coordinate that is left out is 0, so the
    empty object is kept as the zero displacement. *)
Theorem missing_coordinate_is_zero (parse : string -> option Q)
        (d : list (string * json)) (st : Step) :
  normalize_entry parse (JDict d) = inr (Some st) ->
  (dict_get "x" d = None -> step_x st = 0%Q) /\
  (dict_get "y" d = None -> step_y st = 0%Q) /\
  (dict_get "z" d = None -> step_z st = 0%Q) /\
  normalize_payload parse (JList [JDict []]) = inr [mkStep 0 0 0].
Proof.
  cbn. unfold rbind, dict_get_default.
  destruct (dict_get "x" d) as [vx|] eqn:Ex;
  destruct (dict_get "y" d) as [vy|] eqn:Ey;
  destruct (dict_get "z" d) as [vz|] eqn:Ez;
  repeat match goal with
         | |- context [py_float parse ?v] =>
             lazymatch v with
             | JNum _ => fail
             | _ => destruct (py_float parse v); [discriminate|]
             end
         end;
  cbn [py_float]; intros [= <-]; cbn;
  repeat split; try reflexivity; try discriminate.
Qed.

Lemma missing_coordinate_is_zero_witness :
  normalize_entry (fun _ => None) (JDict [("z", JNum (-1))])
  = inr (Some (mkStep 0 0 (-1))) /\
  ((dict_get "x" [("z", JNum (-1))] = None -> step_x (mkStep 0 0 (-1)) = 0%Q) /\
   (dict_get "y" [("z", JNum (-1))] = None -> step_y (mkStep 0 0 (-1)) = 0%Q) /\
   (dict_get "z" [("z", JNum (-1))] = None -> step_z (mkStep 0 0 (-1)) = 0%Q) /\
   normalize_payload (fun _ => None) (JList [JDict []]) = inr [mkStep 0 0 0]).
Proof.
  split; [reflexivity|].
  apply (missing_coordinate_is_zero (fun _ => None) [("z", JNum (-1))]).
  reflexivity.
Defined.

(** ** Step keys *)

Lemma string_length_app (a b : string) :
  String.length (a ++ b)%string = String.length a + String.length b.
Proof. induction a as [|c a IH]; cbn; [reflexivity | now rewrite IH]. Qed.

Lemma string_length_zeros k :
  String.length (string_of_list_ascii (repeat "0"%char k)) = k.
Proof. induction k as [|k IH]; cbn; [reflexivity | now rewrite IH]. Qed.

(** X5: the key of a step determines its index, for every index (also
    past 999, where the key grows beyond three digits), and a key is never
    shorter than the eight characters of [step_000]. *)
Theorem step_key_determines_index (i j : nat) :
  (step_key_of i = step_key_of j <-> i = j) /\
  8 <= String.length (step_key_of i).
Proof.
  split.
  - split; [apply step_key_of_inj | now intros ->].
  - unfold step_key_of, fmt_03d.
    change (String.length ("step_" ++ ?x)%string) with (5 + String.length x).
    rewrite string_length_app, string_length_zeros.
    cbv zeta. lia.
Qed.

(** ** The descent, in full *)

Lemma seek_loop_returns_only_on_contact fuel : forall s s' b m,
  dict_get "max_force" (config s) = Some m ->
  seek_loop fuel false s = Ret b s' ->
  exists n, n < fuel /\
    descent_finds (ati_feed (env s)) (ati_reads s) m (cont_th s) n = true.
Proof.
  induction fuel as [|fuel IH]; intros s s' b m Hm Hrun; [discriminate|].
  cbn [seek_loop] in Hrun. revert Hrun. run_monad.
  cbn -[seek_loop Qle_bool Qplus]. rewrite Hm. cbn -[seek_loop Qle_bool Qplus].
  destruct (Qle_bool _ m) eqn:Hsafe; cbn -[seek_loop Qle_bool Qplus]; [discriminate|].
  destruct (Qle_bool _ (cont_th s)) eqn:Hth; cbn -[seek_loop Qle_bool Qplus].
  - intros _. exists 0. split; [lia|]. cbn [descent_finds]. now rewrite Hsafe, Hth.
  - intros Hrun. apply IH with (m := m) in Hrun; [|exact Hm].
    destruct Hrun as (n & Hlt & Hd). exists (S n). split; [lia|].
    cbn [descent_finds]. rewrite Hsafe, Hth. exact Hd.
Qed.

(** X6: with the safety limit configured, the descent returns exactly
    when, within the fuel, some iteration reads a contact value at or below
    the threshold while every safety reading up to it is above the limit
    and every earlier contact reading above the threshold; it has then read
    the force sensor twice per iteration. *)
Theorem descent_returns_iff_contact_is_met
        (fuel : nat) (s : State) (m : Q) :
  dict_get "max_force" (config s) = Some m ->
  ((exists b s', seek_loop fuel false s = Ret b s') <->
   (exists n, n < fuel /\
      descent_finds (ati_feed (env s)) (ati_reads s) m (cont_th s) n = true)) /\
  (forall n, n < fuel ->
     descent_finds (ati_feed (env s)) (ati_reads s) m (cont_th s) n = true ->
     exists s', seek_loop fuel false s = Ret true s' /\
                ati_reads s' = ati_reads s + 2 * (n + 1)).
Proof.
  intros Hm. split; [split|].
  - intros (b & s' & Hrun). eapply seek_loop_returns_only_on_contact; eauto.
  - intros (n & Hlt & Hd).
    destruct (seek_loop_finds n fuel s m Hm Hd Hlt) as (s' & Hrun & _).
    eauto.
  - intros n Hlt Hd.
    destruct (seek_loop_finds n fuel s m Hm Hd Hlt) as (s' & Hrun & _ & _ & Hk).
    eauto.
Qed.

Lemma descent_returns_iff_contact_is_met_witness :
  dict_get "max_force" (config session_contact) = Some (-1)%Q /\
  (((exists b s', seek_loop 5 false session_contact = Ret b s') <->
    (exists n, n < 5 /\
       descent_finds (ati_feed (env session_contact)) (ati_reads session_contact)
                     (-1) (cont_th session_contact) n = true)) /\
   (forall n, n < 5 ->
      descent_finds (ati_feed (env session_contact)) (ati_reads session_contact)
                    (-1) (cont_th session_contact) n = true ->
      exists s', seek_loop 5 false session_contact = Ret true s' /\
                 ati_reads s' = ati_reads session_contact + 2 * (n + 1))).
Proof.
  split; [vm_compute; reflexivity|].
  apply (descent_returns_iff_contact_is_met 5 session_contact (-1)).
  vm_compute. reflexivity.
Defined.

Lemma seek_loop_commands n : forall fuel s m,
  dict_get "max_force" (config s) = Some m ->
  descent_finds (ati_feed (env s)) (ati_reads s) m (cont_th s) n = true ->
  n < fuel ->
  exists s', seek_loop fuel false s = Ret true s' /\
    filter is_motion (trace s') =
      filter is_motion (trace s) ++ descent_commands (robot_xyz s) n /\
    robot_xyz s' = descent_end (robot_xyz s) n /\
    z_cont s' = Some (snd (robot_xyz s')).
Proof.
  induction n as [|n IH]; intros fuel s m Hm Hd Hlt;
    (destruct fuel as [|fuel]; [lia|]);
    cbn [descent_finds] in Hd;
    apply andb_prop in Hd; destruct Hd as [Hsafe Hd];
    apply negb_true_iff in Hsafe;
    cbn [seek_loop]; run_monad; cbn -[seek_loop Qle_bool Qplus];
    rewrite Hm; cbn -[seek_loop Qle_bool Qplus];
    rewrite Hsafe; cbn -[seek_loop Qle_bool Qplus].
  - rewrite Hd. eexists. split; [reflexivity|]. cbn -[Qplus].
    split; [|split; reflexivity].
    rewrite !filter_app. cbn. now rewrite !app_nil_r.
  - apply andb_prop in Hd. destruct Hd as [Hth Hd].
    apply negb_true_iff in Hth. rewrite Hth. cbn -[seek_loop Qle_bool Qplus].
    match goal with |- context [seek_loop fuel false ?s1] =>
      destruct (IH fuel s1 m) as (s' & Hrun & Hmo & Hp & Hz) end;
      [exact Hm | exact Hd | lia |].
    exists s'. split; [exact Hrun|].
    cbn -[Qplus] in Hmo, Hp.
    split; [|split; [exact Hp | exact Hz]].
    rewrite Hmo. rewrite !filter_app. cbn -[Qplus]. rewrite !app_nil_r.
    now rewrite <- app_assoc.
Qed.

Lemma descent_commands_length p n : List.length (descent_commands p n) = n.
Proof.
  revert p. induction n as [|n IH]; intros p; cbn [descent_commands List.length];
    [reflexivity | now rewrite IH].
Qed.

(** X7: a descent that meets contact in iteration n has sent exactly n
    motion commands, each targeting the pose the robot reported before it
    with -0.01 added to z (and 0 to x and y); the contact height recorded
    is the z the robot reports when the loop is left, that of the last
    target (of the start when n is 0). *)
Theorem descent_sends_one_command_per_iteration
        (fuel : nat) (s : State) (m : Q) (n : nat) :
  dict_get "max_force" (config s) = Some m ->
  descent_finds (ati_feed (env s)) (ati_reads s) m (cont_th s) n = true ->
  n < fuel ->
  exists s', seek_loop fuel false s = Ret true s' /\
    filter is_motion (trace s') =
      filter is_motion (trace s) ++ descent_commands (robot_xyz s) n /\
    motions s' = motions s + n /\
    robot_xyz s' = descent_end (robot_xyz s) n /\
    z_cont s' = Some (snd (descent_end (robot_xyz s) n)).
Proof.
  intros Hm Hd Hlt.
  destruct (seek_loop_commands n fuel s m Hm Hd Hlt) as (s' & Hrun & Hmo & Hp & Hz).
  exists s'. split; [exact Hrun|]. split; [exact Hmo|].
  split; [|split; [exact Hp | now rewrite <- Hp]].
  unfold motions. now rewrite Hmo, length_app, descent_commands_length.
Qed.

Lemma descent_sends_one_command_per_iteration_witness :
  exists s', seek_loop 5 false session_contact = Ret true s' /\
    filter is_motion (trace s') =
      filter is_motion (trace session_contact)
      ++ [MoveCart (1113160 # 2000) (-400140 # 2000) (1348800 # 10000)] /\
    motions s' = motions session_contact + 1 /\
    robot_xyz s' = descent_end (robot_xyz session_contact) 1 /\
    z_cont s' = Some (snd (descent_end (robot_xyz session_contact) 1)).
Proof.
  destruct (descent_sends_one_command_per_iteration 5 session_contact (-1) 1)
    as (s' & Hrun & Hmo & Hn & Hp & Hz).
  - vm_compute. reflexivity.
  - vm_compute. reflexivity.
  - lia.
  - exists s'. split; [exact Hrun|]. split; [|split; [exact Hn | split; [exact Hp | exact Hz]]].
    rewrite Hmo. vm_compute. reflexivity.
Defined.

(** X8: the descent has no lower bound of its own.  When no reading of the
    feed ever reaches the safety limit or the contact threshold, the loop
    is still descending after any number of iterations. *)
Theorem descent_without_contact_never_ends (s : State) (m : Q) :
  dict_get "max_force" (config s) = Some m ->
  (forall k, Qle_bool (snd (ati_feed (env s) k)) m = false) ->
  (forall k, Qle_bool (snd (ati_feed (env s) k)) (cont_th s) = false) ->
  forall fuel, seek_loop fuel false s = Timeout.
Proof.
  intros Hm Hsafe Hth fuel. revert s Hm Hsafe Hth.
  induction fuel as [|fuel IH]; intros s Hm Hsafe Hth; [reflexivity|].
  cbn [seek_loop]. run_monad. cbn -[seek_loop Qle_bool Qplus].
  rewrite Hm. cbn -[seek_loop Qle_bool Qplus].
  rewrite Hsafe. cbn -[seek_loop Qle_bool Qplus].
  rewrite Hth. cbn -[seek_loop Qle_bool Qplus].
  apply IH; [exact Hm | exact Hsafe | exact Hth].
Qed.

Lemma seek_loop_error fuel : forall s m e s',
  dict_get "max_force" (config s) = Some m ->
  seek_loop fuel false s = Exc e s' ->
  (exists fz, e = ForceTooLarge fz /\ Qle_bool fz m = true) /\
  z_cont s' = z_cont s /\
  last_event s' = Some (Log ERROR (MsgForceTooLarge
                                     (match e with ForceTooLarge fz => fz | _ => 0%Q end))).
Proof.
  induction fuel as [|fuel IH]; intros s m e s' Hm Hrun; [discriminate|].
  cbn [seek_loop] in Hrun. revert Hrun. run_monad.
  cbn -[seek_loop Qle_bool Qplus]. rewrite Hm. cbn -[seek_loop Qle_bool Qplus].
  destruct (Qle_bool _ m) eqn:Hsafe; cbn -[seek_loop Qle_bool Qplus].
  - intros [= <- <-]. split; [eauto|]. split; [reflexivity|].
    unfold last_event. cbn [trace set_trace]. now rewrite rev_app_distr.
  - destruct (Qle_bool _ (cont_th s)); cbn -[seek_loop Qle_bool Qplus];
      [discriminate|].
    intros Hrun. apply IH with (m := m) in Hrun; [|exact Hm].
    exact Hrun.
Qed.

Lemma descent_without_contact_never_ends_witness :
  dict_get "max_force" (config session_free_air) = Some (-1)%Q /\
  forall fuel, seek_loop fuel false session_free_air = Timeout.
Proof.
  split; [vm_compute; reflexivity|].
  apply (descent_without_contact_never_ends session_free_air (-1)).
  - vm_compute. reflexivity.
  - intros k. change (env session_free_air) with
      (lab (Content library_push) None [] tactile_ok).
    cbn [ati_feed lab feed_of snd]. now destruct k.
  - intros k. change (env session_free_air) with
      (lab (Content library_push) None [] tactile_ok).
    change (cont_th session_free_air) with (-2 # 100)%Q.
    cbn [ati_feed lab feed_of snd]. now destruct k.
Defined.

(** X9: with the three keys of the descent configured, the only exception
    [move_to_contact] raises is the over-force error, on a reading at or
    below the limit; the contact height known before is then left as it
    was, and nothing follows the error in the trace: the press speed is not
    restored. *)
Theorem move_to_contact_raises_only_over_force
        (fuel : nat) (s : State) (a m p : Q) (e : Exn) (s' : State) :
  dict_get "approach_speed" (config s) = Some a ->
  dict_get "max_force" (config s) = Some m ->
  dict_get "press_speed" (config s) = Some p ->
  move_to_contact fuel s = Exc e s' ->
  exists fz, e = ForceTooLarge fz /\ Qle_bool fz m = true /\
             z_cont s' = z_cont s /\
             last_event s' = Some (Log ERROR (MsgForceTooLarge fz)).
Proof.
  intros Ha Hm Hp. unfold move_to_contact. run_monad.
  cbn -[seek_loop Qle_bool Qplus].
  destruct (z_cont s) eqn:Hz; cbn -[seek_loop Qle_bool Qplus];
    rewrite Ha; cbn -[seek_loop Qle_bool Qplus];
    match goal with |- context [seek_loop fuel false ?s1] =>
      pose proof (seek_loop_exits fuel s1) as Hex;
      pose proof (fun e s' => seek_loop_error fuel s1 m e s' Hm) as Herr;
      destruct (seek_loop fuel false s1) as [b s2|e2 s2|] end;
    try discriminate.
  1,3: destruct Hex as (-> & _ & Hf); cbn -[Qplus];
       (replace (config s2) with (config s) by frame_tac);
       rewrite Hp; discriminate.
  all: intros [= <- <-]; destruct (Herr e2 s2 eq_refl) as ((fz & -> & Hle) & Hzc & Hlast);
       exists fz; cbn [z_cont set_trace set_robot_xyz] in Hzc;
       split; [reflexivity|]; split; [exact Hle|]; split; [congruence | exact Hlast].
Qed.

Lemma move_to_contact_raises_only_over_force_witness :
  exists s',
    move_to_contact 5 session_two = Exc (ForceTooLarge (-2)) s' /\
    exists fz, ForceTooLarge (-2) = ForceTooLarge fz /\ Qle_bool fz (-1) = true /\
               z_cont s' = z_cont session_two /\
               last_event s' = Some (Log ERROR (MsgForceTooLarge fz)).
Proof.
  eexists. split; [vm_compute; reflexivity|].
  apply (move_to_contact_raises_only_over_force 5 session_two 1 (-1) 8).
  - vm_compute. reflexivity.
  - vm_compute. reflexivity.
  - vm_compute. reflexivity.
  - vm_compute. reflexivity.
Defined.

(** ** What a computation leaves as it was *)

Section Keeps.
Context {B : Type} (f : State -> B).

Lemma keeps_ret {A : Type} (a : A) : keeps f (ret a).
Proof. intros s. reflexivity. Qed.

Lemma keeps_get {A : Type} (g : State -> A) : keeps f (get g).
Proof. intros s. reflexivity. Qed.

Lemma keeps_raise {A : Type} (e : Exn) : keeps f (@raise A e).
Proof. intros s. reflexivity. Qed.

Lemma keeps_lift {A : Type} (r : result A) : keeps f (lift r).
Proof. destruct r; [apply keeps_raise | apply keeps_ret]. Qed.

Lemma keeps_modify g : (forall s, f (g s) = f s) -> keeps f (modify g).
Proof. intros H s. apply H. Qed.

Lemma keeps_bind {A C : Type} (m : M A) (k : A -> M C) :
  keeps f m -> (forall a, keeps f (k a)) -> keeps f (bind m k).
Proof.
  intros Hm Hk s. unfold bind. specialize (Hm s).
  destruct (m s) as [a s1|e s1|]; auto.
  specialize (Hk a s1). destruct (k a s1); auto; congruence.
Qed.

Lemma keeps_try_except {A : Type} (body : M A) (h : Exn -> M A) :
  keeps f body -> (forall e, keeps f (h e)) -> keeps f (try_except body h).
Proof.
  intros Hb Hh s. unfold try_except. specialize (Hb s).
  destruct (body s) as [a s1|e s1|]; auto.
  specialize (Hh e s1). destruct (h e s1); auto; congruence.
Qed.

End Keeps.

Ltac keeps_leaf :=
  intros; first
    [ reflexivity
    | cbn [trace set_trace]; rewrite filter_app; cbn; apply app_nil_r ].

Ltac keeps_go :=
  repeat first
    [ assumption
    | apply keeps_ret | apply keeps_get | apply keeps_raise | apply keeps_lift
    | apply keeps_modify; keeps_leaf
    | apply keeps_bind; [|intros]
    | apply keeps_try_except; [|intros]
    | match goal with
      | |- keeps _ (if ?b then _ else _) => destruct b
      | |- keeps _ (match ?x with _ => _ end) => destruct x
      | |- keeps _ (let _ := _ in _) => cbv zeta
      end ].

Ltac unfold_devices :=
  unfold move_to_contact, move_to_safe_height, move_to_safe_position,
    _collect_current_step_data, _load_storage, _save_storage,
    get_sensor_force_xyz, get_ati_z, get_ati_data, sensor_get_data,
    config_item, subscript, move_delta_xyz, move_to_xyz, get_cartesian,
    moveCart, set_velocity, log, sleep, emit.

Lemma bind_ret_inv {A C : Type} (m : M A) (k : A -> M C) s c s' :
  bind m k s = Ret c s' -> exists a s1, m s = Ret a s1 /\ k a s1 = Ret c s'.
Proof.
  unfold bind. destruct (m s) as [a s1| |]; try discriminate. eauto.
Qed.

Lemma keeps_read_forces {B : Type} (f : State -> B) n :
  (forall s k, f (set_ati_reads k s) = f s) ->
  (forall s t, f (set_trace t s) = f s) ->
  forall acc, keeps f (read_forces n acc).
Proof.
  intros H1 H2. induction n as [|n IH]; intros acc; cbn [read_forces].
  - apply keeps_ret.
  - unfold_devices.
    repeat first [ apply keeps_get | apply keeps_ret
                 | apply keeps_modify; intros; first [apply H1 | apply H2]
                 | apply keeps_bind; [|intros] ].
    apply IH.
Qed.

Lemma keeps_steps_loop {B : Type} (f : State -> B) name steps :
  (forall s k, f (set_ati_reads k s) = f s) ->
  (forall s k, f (set_tactile_reads k s) = f s) ->
  (forall s p, f (set_robot_xyz p s) = f s) ->
  (forall s t, f (set_trace t s) = f s) ->
  forall idx acc, keeps f (steps_loop name idx steps acc).
Proof.
  intros H1 H2 H3 H4. induction steps as [|st steps IH]; intros idx acc;
    cbn [steps_loop].
  - apply keeps_ret.
  - unfold _collect_current_step_data. cbv zeta.
    apply keeps_bind; [|intros _].
    { unfold_devices.
      repeat first [ apply keeps_get
                   | apply keeps_modify; intros; first [apply H3 | apply H4]
                   | apply keeps_bind; [|intros] ]. }
    apply keeps_bind; [|intros r; apply IH].
    apply keeps_try_except.
    + apply keeps_bind; [|intros mk].
      { unfold_devices.
        repeat first [ apply keeps_get | apply keeps_ret | apply keeps_raise
                     | apply keeps_modify; intros; first [apply H2 | apply H4]
                     | apply keeps_bind; [|intros]
                     | match goal with |- keeps _ (match ?x with _ => _ end) =>
                         destruct x end ]. }
      apply keeps_bind; [apply keeps_get | intros n].
      apply keeps_bind; [apply keeps_read_forces; assumption | intros l].
      cbv zeta. unfold_devices.
      repeat first [ apply keeps_ret
                   | apply keeps_modify; intros; apply H4
                   | apply keeps_bind; [|intros] ].
    + intros e. unfold_devices.
      repeat first [ apply keeps_raise
                   | apply keeps_modify; intros; apply H4
                   | apply keeps_bind; [|intros] ].
Qed.

Lemma keeps_seek_loop {B : Type} (f : State -> B) fuel :
  (forall s k, f (set_ati_reads k s) = f s) ->
  (forall s p, f (set_robot_xyz p s) = f s) ->
  (forall s z, f (set_z_cont z s) = f s) ->
  (forall s t, f (set_trace t s) = f s) ->
  keeps f (seek_loop fuel false).
Proof.
  intros H1 H2 H3 H4. induction fuel as [|fuel IH]; cbn [seek_loop].
  - intros s. exact I.
  - unfold_devices.
    repeat first
      [ exact IH
      | apply keeps_get | apply keeps_ret | apply keeps_raise
      | apply keeps_modify; intros; first [apply H1 | apply H2 | apply H3 | apply H4]
      | apply keeps_bind; [|intros]
      | match goal with
        | |- keeps _ (if ?b then _ else _) => destruct b
        | |- keeps _ (match ?x with _ => _ end) => destruct x
        end ].
Qed.

Lemma keeps_move_to_contact {B : Type} (f : State -> B) fuel :
  (forall s k, f (set_ati_reads k s) = f s) ->
  (forall s p, f (set_robot_xyz p s) = f s) ->
  (forall s z, f (set_z_cont z s) = f s) ->
  (forall s t, f (set_trace t s) = f s) ->
  keeps f (move_to_contact fuel).
Proof.
  intros H1 H2 H3 H4. unfold move_to_contact.
  pose proof (keeps_seek_loop f fuel H1 H2 H3 H4) as Hloop.
  unfold_devices.
  repeat first
    [ exact Hloop
    | apply keeps_get | apply keeps_ret | apply keeps_raise
    | apply keeps_modify; intros; first [apply H1 | apply H2 | apply H3 | apply H4]
    | apply keeps_bind; [|intros]
    | match goal with
      | |- keeps _ (if ?b then _ else _) => destruct b
      | |- keeps _ (match ?x with _ => _ end) => destruct x
      end ].
Qed.

(** ** Sampling one step *)






Lemma steps_loop_fails name steps : forall idx acc s i,
  i < List.length steps ->
  (forall j, j < i -> tactile_feed (env s) (tactile_reads s + j) <> None) ->
  tactile_feed (env s) (tactile_reads s + i) = None ->
  exists s',
    steps_loop name idx steps acc s = Exc DeviceError s' /\
    tactile_reads s' = tactile_reads s + i + 1 /\
    last_event s' = Some (Log ERROR (MsgStepFailed DeviceError)).
Proof.
  induction steps as [|st steps IH]; intros idx acc s i Hi Hok Hfail;
    [cbn in Hi; lia|].
  cbn [steps_loop]. unfold bind at 1. unfold move_delta_xyz.
  run_monad. cbn -[_collect_current_step_data steps_loop].
  destruct i as [|i].
  - rewrite Nat.add_0_r in Hfail.
    unfold _collect_current_step_data. run_monad. cbn. rewrite Hfail.
    eexists. split; [reflexivity|]. cbn. split; [lia|].
    unfold last_event. cbn [trace set_trace]. now rewrite rev_app_distr.
  - match goal with |- context [_collect_current_step_data ?md ?s1] =>
      destruct (tactile_feed (env s1) (tactile_reads s1)) as [mk|] eqn:Hk;
      [ destruct (collect_step_runs md s1 mk Hk)
          as (r & s2 & Hrun & _ & _ & Henv & _ & Htr)
      | exfalso; cbn in Hk; apply (Hok 0); [lia | now rewrite Nat.add_0_r] ]
    end.
    rewrite Hrun. cbn [env tactile_reads set_robot_xyz set_trace] in Henv, Htr.
    destruct (IH (S idx) (dict_set (step_key_of idx) r acc) s2 i)
      as (s' & Hloop & Hcount & Hlast).
    + cbn in Hi. lia.
    + intros j Hj. rewrite Henv, Htr.
      replace (S (tactile_reads s) + j) with (tactile_reads s + S j) by lia.
      apply Hok. lia.
    + rewrite Henv, Htr.
      replace (S (tactile_reads s) + i) with (tactile_reads s + S i) by lia.
      exact Hfail.
    + exists s'. split; [exact Hloop|]. split; [lia | exact Hlast].
Qed.

(** X11: when the approach of a trajectory finds contact and the tactile
    read of step i fails after the reads of the steps before it succeeded,
    [_execute_trajectory] raises the device error: the records of steps
    0..i-1 are not returned, and nothing follows the error log in the
    trace, so the arm is left pressed where step i put it, not returned to
    safe height. *)
Theorem failed_read_aborts_trajectory
        (fuel : nat) (name : string) (steps : list Step) (s : State)
        (a m p : Q) (n i : nat) :
  dict_get "approach_speed" (config s) = Some a ->
  dict_get "max_force" (config s) = Some m ->
  dict_get "press_speed" (config s) = Some p ->
  descent_finds (ati_feed (env s)) (ati_reads s) m (cont_th s) n = true ->
  n < fuel ->
  i < List.length steps ->
  (forall j, j < i -> tactile_feed (env s) (tactile_reads s + j) <> None) ->
  tactile_feed (env s) (tactile_reads s + i) = None ->
  exists s',
    _execute_trajectory fuel name steps s = Exc DeviceError s' /\
    tactile_reads s' = tactile_reads s + i + 1 /\
    last_event s' = Some (Log ERROR (MsgStepFailed DeviceError)).
Proof.
  intros Ha Hm Hp Hd Hlt Hi Hok Hfail.
  unfold _execute_trajectory.
  destruct steps as [|st0 steps0] eqn:Esteps; [cbn in Hi; lia|].
  rewrite <- Esteps in *. replace (truthy steps) with true by now subst.
  cbn [negb]. unfold bind at 1, log, emit, modify, bind at 1.
  unfold bind at 1. unfold move_to_safe_height at 1. run_monad.
  cbn -[move_to_contact steps_loop Qplus].
  match goal with |- context [move_to_contact fuel ?s1] =>
    destruct (move_to_contact_finds fuel s1 a m p n) as (s2 & Hrun & Hf & _);
      [exact Ha | exact Hm | exact Hp | exact Hd | exact Hlt |]
  end.
  rewrite Hrun. cbn -[steps_loop Qplus].
  match goal with |- context [steps_loop name 0 steps [] ?s3] =>
    destruct (steps_loop_fails name steps 0 [] s3 i Hi) as (s4 & Hloop & Hcount & Hlast)
  end.
  { intros j Hj. cbn. replace (env s2) with (env s) by frame_tac.
    replace (tactile_reads s2) with (tactile_reads s) by frame_tac.
    now apply Hok. }
  { cbn. replace (env s2) with (env s) by frame_tac.
    replace (tactile_reads s2) with (tactile_reads s) by frame_tac.
    exact Hfail. }
  rewrite Hloop. exists s4. split; [reflexivity|].
  split; [|exact Hlast].
  rewrite Hcount. cbn. replace (tactile_reads s2) with (tactile_reads s) by frame_tac.
  reflexivity.
Qed.

Lemma failed_read_aborts_trajectory_witness :
  exists s',
    _execute_trajectory 5 "push" [push; push] session_second_read_fails
      = Exc DeviceError s' /\
    tactile_reads s' = tactile_reads session_second_read_fails + 1 + 1 /\
    last_event s' = Some (Log ERROR (MsgStepFailed DeviceError)).
Proof.
  apply (failed_read_aborts_trajectory 5 "push" [push; push]
           session_second_read_fails 1 (-1) 8 0 1).
  - vm_compute. reflexivity.
  - vm_compute. reflexivity.
  - vm_compute. reflexivity.
  - vm_compute. reflexivity.
  - lia.
  - cbn. lia.
  - intros j Hj. assert (j = 0) by lia. subst j. vm_compute. discriminate.
  - vm_compute. reflexivity.
Defined.

(** ** After a trajectory, after a session *)

Lemma move_to_contact_sets_contact fuel s s' :
  move_to_contact fuel s = Ret tt s' -> z_cont s' <> None.
Proof.
  unfold move_to_contact. run_monad. cbn -[seek_loop Qle_bool Qplus].
  destruct (z_cont s); cbn -[seek_loop Qle_bool Qplus];
    (destruct (dict_get "approach_speed" (config s));
     cbn -[seek_loop Qle_bool Qplus]; [|discriminate]);
    match goal with |- context [seek_loop fuel false ?s1] =>
      pose proof (seek_loop_exits fuel s1) as H;
      destruct (seek_loop fuel false s1) as [b s2|e s2|] end;
    try discriminate;
    destruct H as (-> & Hz & _); cbn;
    match goal with |- context [dict_get "press_speed" ?c] =>
      destruct (dict_get "press_speed" c) end; cbn; try discriminate;
    intros [= <-]; exact Hz.
Qed.

(** X12: a trajectory with steps that is executed to the end leaves the
    contact height set and the arm parked at exactly that height plus the
    configured clearance. *)
Theorem trajectory_ends_at_safe_height
        (fuel : nat) (name : string) (steps : list Step)
        (s : State) (recs : TrajData) (s' : State) :
  steps <> [] ->
  _execute_trajectory fuel name steps s = Ret recs s' ->
  exists z, z_cont s' = Some z /\
            snd (robot_xyz s') = (z + safe_offset_mm s)%Q.
Proof.
  intros Hne. unfold _execute_trajectory.
  destruct steps as [|st0 steps0] eqn:Esteps; [congruence|].
  rewrite <- Esteps. replace (truthy steps) with true by now subst.
  cbn [negb]. intros Hrun.
  apply bind_ret_inv in Hrun. destruct Hrun as ([] & s1 & H1 & Hrun).
  apply bind_ret_inv in Hrun. destruct Hrun as ([] & s2 & H2 & Hrun).
  apply bind_ret_inv in Hrun. destruct Hrun as (dt & s3 & H3 & Hrun).
  apply bind_ret_inv in Hrun. destruct Hrun as ([] & s4 & H4 & Hrun).
  apply bind_ret_inv in Hrun. destruct Hrun as ([] & s5 & H5 & Hrun).
  apply bind_ret_inv in Hrun. destruct Hrun as ([] & s6 & H6 & Hrun).
  apply bind_ret_inv in Hrun. destruct Hrun as (td & s7 & H7 & Hrun).
  assert (Hoff : forall fuel, keeps safe_offset_mm (move_to_contact fuel))
    by (intros; apply keeps_move_to_contact; reflexivity).
  assert (Hoff' : keeps safe_offset_mm (steps_loop name 0 steps []))
    by (apply keeps_steps_loop; reflexivity).
  assert (Hz' : keeps z_cont (steps_loop name 0 steps []))
    by (apply keeps_steps_loop; reflexivity).
  pose proof (move_to_contact_sets_contact fuel s4 s5 H5) as Hz5.
  specialize (Hoff fuel s4). rewrite H5 in Hoff.
  specialize (Hoff' s6). rewrite H7 in Hoff'.
  specialize (Hz' s6). rewrite H7 in Hz'.
  revert H1 H2 H3 H4 H6 Hrun.
  run_monad. cbn -[Qplus].
  intros [= <-] [= <-] [= <- <-] [= <-] [= <-].
  cbn -[Qplus] in *.
  destruct (z_cont s5) as [z|] eqn:Ez; [|congruence].
  rewrite Hz'. intros [= <- <-]. cbn -[Qplus].
  exists z. split; [exact Hz'|]. rewrite Hoff', Hoff. reflexivity.
Qed.

Lemma trajectory_ends_at_safe_height_witness :
  exists recs s',
    _execute_trajectory 5 "push" [push; push] session_contact = Ret recs s' /\
    exists z, z_cont s' = Some z /\
              snd (robot_xyz s') = (z + safe_offset_mm session_contact)%Q.
Proof.
  eexists. eexists. split; [vm_compute; reflexivity|].
  eapply (trajectory_ends_at_safe_height 5 "push" [push; push] session_contact).
  - discriminate.
  - vm_compute. reflexivity.
Defined.

Lemma dict_get_In_keys {V : Type} k (d : dict V) :
  dict_get k d <> None <-> In k (dict_keys d).
Proof.
  pose proof (dict_get_None_notin k d) as H.
  destruct (dict_get k d) eqn:E.
  - split; [intros _|discriminate].
    destruct (in_dec string_dec k (dict_keys d)) as [Hin|Hn]; [exact Hin|].
    apply H in Hn. discriminate.
  - split; [congruence|]. intros Hin. exfalso. apply H in Hin; auto.
Qed.

Lemma trajectories_loop_records fuel items : forall acc s od s',
  trajectories_loop fuel items acc s = Ret od s' ->
  (Forall (fun te => snd te <> []) acc -> Forall (fun te => snd te <> []) od) /\
  (forall t d, dict_get t acc = Some d -> ~ In t (map fst items) ->
               dict_get t od = Some d) /\
  (forall t, dict_get t od <> None ->
             dict_get t acc <> None \/ In t (map fst items)).
Proof.
  induction items as [|[name steps] rest IH]; intros acc s od s' Hrun.
  - cbn in Hrun. injection Hrun as <- <-. repeat split; auto.
  - cbn [trajectories_loop] in Hrun.
    apply bind_ret_inv in Hrun. destruct Hrun as (acc1 & s1 & Hstep & Hrun).
    destruct (IH acc1 s1 od s' Hrun) as (Hne & Hkeep & Hsrc).
    assert (Hacc1 : acc1 = acc \/ exists td, td <> [] /\ acc1 = dict_set name td acc).
    { revert Hstep. unfold try_except, bind.
      destruct (_execute_trajectory fuel name steps s) as [td s2|e s2|];
        try discriminate.
      - unfold ret. intros [= <- <-].
        destruct td as [|x td]; cbn [truthy]; [now left|].
        right. eexists. split; [|reflexivity]. discriminate.
      - unfold log, emit, modify, ret. intros [= <- <-]. now left. }
    split; [|split].
    + intros Hall. apply Hne. destruct Hacc1 as [->|(td & Htd & ->)]; [exact Hall|].
      now apply (Forall_snd_dict_set (fun v => v <> [])).
    + intros t d Hget Hnot. cbn [map fst] in Hnot.
      apply Hkeep; [|intros Hin; apply Hnot; right; exact Hin].
      destruct Hacc1 as [->|(td & Htd & ->)]; [exact Hget|].
      rewrite dict_get_set_other; [exact Hget | intros ->; apply Hnot; now left].
    + intros t Hget. cbn [map fst].
      destruct (Hsrc t Hget) as [Hin|Hin]; [|right; right; exact Hin].
      destruct Hacc1 as [->|(td & Htd & ->)]; [left; exact Hin|].
      destruct (String.eqb_spec t name) as [->|Hneq]; [right; now left|].
      rewrite dict_get_set_other in Hin by congruence. left. exact Hin.
Qed.

(** X13: the tree a session returns has one entry, for the object, and is
    what is stored in [calibration_data]; every trajectory in it is one
    of the configured trajectories of the object and holds at least one
    record: a trajectory that failed, or recorded nothing, has no entry. *)
Theorem session_tree_has_only_recorded_trajectories
        (fuel : nat) (s : State) (tree : Tree) (s' : State) :
  collect_calibration_data fuel s = Ret tree s' ->
  exists od,
    tree = [(object_name s, od)] /\
    dict_get (object_name s) (calibration_data s') = Some od /\
    Forall (fun te => snd te <> []) od /\
    forall t, dict_get t od <> None ->
      dict_get t (dict_get_default (object_name s) [] (trajectory_config s)) <> None.
Proof.
  unfold collect_calibration_data, log, emit, modify, bind, get, ret.
  cbn [object_name trajectory_config set_trace].
  destruct (truthy _) eqn:Et; cbn [negb].
  - match goal with |- context [trajectories_loop fuel ?it ?acc ?s1] =>
      pose proof (fun od s' => trajectories_loop_records fuel it acc s1 od s') as H;
      destruct (trajectories_loop fuel it acc s1) as [od s2|e s2|] end;
      try discriminate.
    intros [= <- <-]. destruct (H od s2 eq_refl) as (Hne & _ & Hsrc).
    exists od. split; [reflexivity|]. cbn [calibration_data set_trace set_calibration_data].
    split; [apply dict_get_set_same|]. split; [apply Hne; constructor|].
    intros t Ht. destruct (Hsrc t Ht) as [Hin|Hin]; [now cbn in Hin|].
    now apply dict_get_In_keys.
  - intros [= <- <-]. exists []. split; [reflexivity|].
    cbn [calibration_data set_trace set_calibration_data].
    split; [apply dict_get_set_same|]. split; [constructor|].
    intros t Ht. now cbn in Ht.
Qed.

Lemma session_tree_has_only_recorded_trajectories_witness :
  exists tree s',
    collect_calibration_data 5 session_two = Ret tree s' /\
    exists od,
      tree = [(object_name session_two, od)] /\
      dict_get (object_name session_two) (calibration_data s') = Some od /\
      Forall (fun te => snd te <> []) od /\
      forall t, dict_get t od <> None ->
        dict_get t (dict_get_default (object_name session_two) []
                                     (trajectory_config session_two)) <> None.
Proof.
  eexists. eexists. split; [vm_compute; reflexivity|].
  eapply (session_tree_has_only_recorded_trajectories 5 session_two).
  vm_compute. reflexivity.
Defined.

(** X14: for an object without configured trajectories the session
    returns the empty subtree after two log lines and the update of
    [calibration_data]: no command is sent to the robot and no sensor is
    read. *)
Theorem session_for_absent_object_is_silent (fuel : nat) (s : State) :
  dict_get_default (object_name s) [] (trajectory_config s) = [] ->
  collect_calibration_data fuel s =
  Ret [(object_name s, [])]
      (set_calibration_data (dict_set (object_name s) [] (calibration_data s))
         (add_events [Log INFO (MsgCollectStart (object_name s));
                      Log WARNING (MsgObjectNotInConfig (object_name s))] s)).
Proof.
  intros H. unfold collect_calibration_data, log, emit, modify, bind, get, ret.
  cbn [object_name trajectory_config set_trace]. rewrite H. cbn [truthy negb].
  unfold add_events, set_calibration_data, set_trace. cbn.
  now rewrite <- app_assoc.
Qed.

Lemma session_for_absent_object_is_silent_witness :
  let s := started (lab Missing None [] tactile_ok) "cube" in
  collect_calibration_data 5 s =
  Ret [(object_name s, [])]
      (set_calibration_data (dict_set (object_name s) [] (calibration_data s))
         (add_events [Log INFO (MsgCollectStart (object_name s));
                      Log WARNING (MsgObjectNotInConfig (object_name s))] s)).
Proof.
  apply (session_for_absent_object_is_silent 5
           (started (lab Missing None [] tactile_ok) "cube")).
  vm_compute. reflexivity.
Defined.

(** ** Saving and reading back *)

Lemma load_storage_explicit s :
  _load_storage s =
  Ret (loaded (storage_file s))
      (add_events (match storage_file s with
                   | Unreadable => [Log ERROR MsgStorageReadFailed]
                   | _ => []
                   end) s).
Proof.
  unfold _load_storage, bind, get.
  destruct (storage_file s) as [| |[t|]]; cbn [loaded];
    try (now rewrite add_events_nil).
  reflexivity.
Qed.

Lemma set_storage_file_add_events f evs s :
  set_storage_file f (add_events evs s) = add_events evs (set_storage_file f s).
Proof. reflexivity. Qed.

Lemma save_storage_runs data s :
  _save_storage data s =
  Ret tt (add_events [StorageWrite data; Log INFO MsgStorageWritten]
            (set_storage_file (Content (PickledTree data)) s)).
Proof.
  destruct s. unfold _save_storage, log, emit, modify, bind, add_events.
  cbn. now rewrite <- app_assoc.
Qed.

Lemma save_calibration_data_runs s :
  calibration_data s <> [] ->
  exists evs,
    save_calibration_data s =
    Ret tt (add_events evs
              (set_storage_file
                 (Content (PickledTree
                    (merge_objects (calibration_data s) (loaded (storage_file s)))))
                 s)) /\
    (storage_file s = Unreadable -> In (Log ERROR MsgStorageReadFailed) evs).
Proof.
  intros Hne. pose proof (load_storage_explicit s) as Hload.
  set (ev0 := match storage_file s with
              | Unreadable => [Log ERROR MsgStorageReadFailed]
              | _ => []
              end) in *.
  assert (Hev0 : storage_file s = Unreadable -> In (Log ERROR MsgStorageReadFailed) ev0)
    by (intros Hu; subst ev0; rewrite Hu; now left).
  set (new := calibration_data s) in *.
  eexists. split.
  - unfold save_calibration_data. unfold bind at 1, get at 1. fold new.
    destruct new as [|x new'] eqn:En; [congruence|]. cbn [truthy negb].
    rewrite <- En. unfold bind at 1. rewrite Hload.
    unfold bind at 1. rewrite save_objects_runs.
    unfold bind at 1. rewrite save_storage_runs.
    change (log ?l ?m ?st) with (Ret tt (add_events [Log l m] st)).
    rewrite !set_storage_file_add_events, !add_events_app. reflexivity.
  - intros Hu. pose proof (Hev0 Hu). rewrite !in_app_iff. tauto.
Qed.

(** X15: what is saved can be read back.  After a session tree whose
    levels are dicts has been saved, [_load_storage] returns a tree in
    which every record of the session is found under its path; saving the
    same session once more leaves every path of the store as it is. *)
Theorem saved_records_are_read_back (s : State) :
  calibration_data s <> [] ->
  tree_wf (calibration_data s) ->
  exists s1 stored s2,
    save_calibration_data s = Ret tt s1 /\
    _load_storage s1 = Ret stored s1 /\
    (forall o t k v, tree_get (calibration_data s) o t k = Some v ->
                     tree_get stored o t k = Some v) /\
    save_calibration_data s1 = Ret tt s2 /\
    (forall o t k, tree_get (loaded (storage_file s2)) o t k = tree_get stored o t k).
Proof.
  intros Hne Hwf.
  destruct (save_calibration_data_runs s Hne) as (evs & Hsave & _).
  match type of Hsave with _ = Ret tt ?x => set (s1 := x) in * end.
  assert (Hcd : calibration_data s1 = calibration_data s) by reflexivity.
  assert (Hst : storage_file s1 =
                Content (PickledTree (merge_objects (calibration_data s)
                                        (loaded (storage_file s))))) by reflexivity.
  destruct (save_calibration_data_runs s1) as (evs2 & Hsave2 & _);
    [now rewrite Hcd|].
  exists s1. eexists. eexists.
  split; [exact Hsave|].
  split; [unfold _load_storage, bind, get; rewrite Hst; reflexivity|].
  split.
  { intros o t k v Hv. rewrite tree_get_merge by exact Hwf. now rewrite Hv. }
  split; [exact Hsave2|].
  intros o t k. cbn [storage_file add_events set_trace set_storage_file loaded].
  rewrite Hcd, Hst. cbn [loaded].
  rewrite (tree_get_merge (calibration_data s) (merge_objects _ _)) by exact Hwf.
  rewrite tree_get_merge by exact Hwf.
  now destruct (tree_get (calibration_data s) o t k).
Qed.

Lemma saved_records_are_read_back_witness :
  exists s1 stored s2,
    save_calibration_data session_to_save = Ret tt s1 /\
    _load_storage s1 = Ret stored s1 /\
    (forall o t k v, tree_get (calibration_data session_to_save) o t k = Some v ->
                     tree_get stored o t k = Some v) /\
    save_calibration_data s1 = Ret tt s2 /\
    (forall o t k, tree_get (loaded (storage_file s2)) o t k = tree_get stored o t k).
Proof.
  apply (saved_records_are_read_back session_to_save).
  - cbn. discriminate.
  - exact session_to_save_wf.
Defined.

(** X16: a storage file that cannot be decoded, or that does not hold a
    dict, counts as empty: saving writes a store that holds the records of
    the session and nothing else, so what the file held is lost; the
    failure to decode is logged as an error. *)
Theorem undecodable_store_is_replaced (s : State) :
  calibration_data s <> [] ->
  tree_wf (calibration_data s) ->
  storage_file s = Unreadable \/ storage_file s = Content PickledOther ->
  exists merged s',
    save_calibration_data s = Ret tt s' /\
    storage_file s' = Content (PickledTree merged) /\
    (forall o t k, tree_get merged o t k = tree_get (calibration_data s) o t k) /\
    (storage_file s = Unreadable -> In (Log ERROR MsgStorageReadFailed) (trace s')).
Proof.
  intros Hne Hwf Hbad.
  destruct (save_calibration_data_runs s Hne) as (evs & Hsave & Hlog).
  eexists. eexists. split; [exact Hsave|]. split; [reflexivity|]. split.
  - intros o t k. rewrite tree_get_merge by exact Hwf.
    assert (Hold : loaded (storage_file s) = [])
      by (destruct Hbad as [-> | ->]; reflexivity).
    rewrite Hold. now destruct (tree_get (calibration_data s) o t k).
  - intros Hu. cbn [trace add_events set_trace]. apply in_or_app. right. auto.
Qed.

Lemma undecodable_store_is_replaced_witness :
  let s := set_storage_file Unreadable session_to_save in
  exists merged s',
    save_calibration_data s = Ret tt s' /\
    storage_file s' = Content (PickledTree merged) /\
    (forall o t k, tree_get merged o t k = tree_get (calibration_data s) o t k) /\
    (storage_file s = Unreadable -> In (Log ERROR MsgStorageReadFailed) (trace s')).
Proof.
  apply (undecodable_store_is_replaced (set_storage_file Unreadable session_to_save)).
  - cbn. discriminate.
  - vm_compute. repeat constructor; cbn; tauto.
  - left. reflexivity.
Defined.

(** ** The entry point *)

Lemma load_trajectory_config_non_object s raw :
  traj_json (env s) = Content raw ->
  (forall d, raw <> JDict d) ->
  _load_trajectory_config s = Exc AttributeError s.
Proof.
  intros Ht Hraw. unfold _load_trajectory_config. unfold bind at 1, get at 1.
  rewrite Ht. destruct raw as [| | | | |d]; try reflexivity.
  now destruct (Hraw d).
Qed.

Lemma cleanup_ends_with_shutdown s s' :
  cleanup s = Ret tt s' ->
  exists pre, trace s' =
    pre ++ [TactileRelease; Sleep 1; MotorOff; Log INFO MsgCleanupDone].
Proof.
  unfold cleanup. intros H.
  apply bind_ret_inv in H. destruct H as ([] & s1 & _ & H).
  apply bind_ret_inv in H. destruct H as ([] & s2 & _ & H).
  apply bind_ret_inv in H. destruct H as (cd & s3 & _ & H).
  apply bind_ret_inv in H. destruct H as ([] & s4 & _ & H).
  revert H. unfold try_except, sleep, log, emit, modify, bind.
  intros [= <-]. cbn [trace set_trace]. exists (trace s4).
  now rewrite <- !app_assoc.
Qed.

(** X17: when the trajectory file names objects and the requested object
    is not one of them, [main] logs one error and returns: the collector is
    not constructed and no device is touched. *)
Theorem unknown_object_stops_before_hardware
        (fuel : nat) (args : Args) (s : State) (cfg : list (string * json)) :
  traj_json (env s) = Content (JDict cfg) ->
  cfg <> [] ->
  dict_get (arg_object args) cfg = None ->
  main fuel args s =
  Ret tt (add_events
            [Log ERROR (MsgObjectUnavailable (arg_object args) (dict_keys cfg))] s).
Proof.
  intros Ht Hne Hget. unfold main, bind, get. rewrite Ht.
  cbn [_load_available_objects].
  assert (Hex : existsb (String.eqb (arg_object args)) (dict_keys cfg) = false).
  { apply dict_get_None_notin in Hget.
    destruct (existsb _ _) eqn:E; [|reflexivity].
    apply existsb_exists in E. destruct E as (k & Hin & Heq).
    apply String.eqb_eq in Heq. subst k. contradiction. }
  rewrite Hex. destruct cfg as [|x cfg]; [congruence|]. reflexivity.
Qed.

Lemma unknown_object_stops_before_hardware_witness :
  let s := blank (lab (Content library_push) None [] tactile_ok) (0, 0, 0)%Q Missing in
  main 5 (mkArgs "ball" None false) s =
  Ret tt (add_events
            [Log ERROR (MsgObjectUnavailable "ball"
                          (dict_keys [("cube", JDict [("push", as_tuples [push; push])])]))] s).
Proof.
  apply (unknown_object_stops_before_hardware 5 (mkArgs "ball" None false)
           (blank (lab (Content library_push) None [] tactile_ok) (0, 0, 0)%Q Missing)
           [("cube", JDict [("push", as_tuples [push; push])])]).
  - reflexivity.
  - discriminate.
  - reflexivity.
Defined.

(** X18: a trajectory file whose top-level value is not an object passes
    the test on the object name, for which it lists no object, but not the
    construction of the collector: [raw_config.items()] raises an attribute
    error, which leaves [main] before anything is logged and before any
    device is touched, in a dry run as in a real one. *)
Theorem non_object_trajectory_file_crashes_main
        (fuel : nat) (args : Args) (s : State) (raw : json) :
  traj_json (env s) = Content raw ->
  (forall d, raw <> JDict d) ->
  _load_available_objects (traj_json (env s)) = [] /\
  main fuel args s = Exc AttributeError s.
Proof.
  intros Ht Hraw.
  assert (Hobj : _load_available_objects (traj_json (env s)) = []).
  { rewrite Ht. destruct raw as [| | | | |d]; try reflexivity. now destruct (Hraw d). }
  split; [exact Hobj|].
  unfold main. unfold bind at 1, get at 1. cbv zeta. rewrite Hobj.
  cbn [truthy andb]. unfold bind at 1.
  unfold __init__. unfold bind at 1, get at 1. cbv zeta. unfold bind at 1.
  now rewrite (load_trajectory_config_non_object s raw Ht Hraw).
Qed.

Lemma non_object_trajectory_file_crashes_main_witness :
  let s := blank (lab (Content (JList [])) None [] tactile_ok) (0, 0, 0)%Q Missing in
  _load_available_objects (traj_json (env s)) = [] /\
  main 5 (mkArgs "cube" None true) s = Exc AttributeError s.
Proof.
  apply (non_object_trajectory_file_crashes_main 5 (mkArgs "cube" None true)
           (blank (lab (Content (JList [])) None [] tactile_ok) (0, 0, 0)%Q Missing)
           (JList [])).
  - reflexivity.
  - discriminate.
Defined.

(** X19: teardown is not skipped.  Whenever [main] returns, either it
    stopped at the test on the object name, or the last things it did are
    releasing the tactile sensor, switching the motors off and logging the
    end of the cleanup -- also after a session in which trajectories
    failed. *)
Theorem main_returns_after_shutdown
        (fuel : nat) (args : Args) (s s' : State) :
  main fuel args s = Ret tt s' ->
  (exists objs, s' = add_events
                       [Log ERROR (MsgObjectUnavailable (arg_object args) objs)] s) \/
  (exists pre, trace s' =
     pre ++ [TactileRelease; Sleep 1; MotorOff; Log INFO MsgCleanupDone]).
Proof.
  unfold main. unfold bind at 1, get at 1.
  destruct (_ && _).
  { unfold log, emit, modify. intros [= <-]. left. eexists. reflexivity. }
  intros H. right.
  apply bind_ret_inv in H. destruct H as ([] & s1 & _ & H).
  destruct (arg_dry_run args).
  - apply bind_ret_inv in H. destruct H as ([] & s2 & _ & H).
    apply bind_ret_inv in H. destruct H as (tc & s3 & _ & H).
    apply bind_ret_inv in H. destruct H as ([] & s4 & _ & H).
    eapply cleanup_ends_with_shutdown; eauto.
  - apply bind_ret_inv in H. destruct H as ([] & s2 & _ & H).
    eapply cleanup_ends_with_shutdown; eauto.
Qed.

Lemma main_returns_after_shutdown_witness :
  exists s',
    run_all_failed = Ret tt s' /\
    ((exists objs, s' = add_events
                          [Log ERROR (MsgObjectUnavailable "cube" objs)]
                          (blank (lab (Content library_push) None [0; -5 # 10]%Q
                                      (fun _ => None)) (0, 0, 0)%Q Missing)) \/
     (exists pre, trace s' =
        pre ++ [TactileRelease; Sleep 1; MotorOff; Log INFO MsgCleanupDone])).
Proof.
  eexists. split; [vm_compute; reflexivity|].
  apply (main_returns_after_shutdown 5 (mkArgs "cube" None false)
           (blank (lab (Content library_push) None [0; -5 # 10]%Q (fun _ => None))
                  (0, 0, 0)%Q Missing)).
  vm_compute. reflexivity.
Defined.

Lemma keeps_save {B : Type} (f : State -> B) :
  (forall s t, f (set_trace t s) = f s) ->
  (forall s x, f (set_storage_file x s) = f s) ->
  keeps f save_calibration_data.
Proof.
  intros H1 H2 s. destruct (calibration_data s) as [|x cd] eqn:E.
  - unfold save_calibration_data, bind, get, log, emit, modify. rewrite E.
    cbn [truthy negb]. apply H1.
  - destruct (save_calibration_data_runs s) as (evs & Hrun & _); [congruence|].
    rewrite Hrun. unfold add_events. now rewrite H1, H2.
Qed.

Lemma py_max_ge a b : (b <= py_max a b)%Q.
Proof.
  unfold py_max. destruct (Qle_bool b a) eqn:E.
  - now apply Qle_bool_iff.
  - apply Qle_refl.
Qed.

(** X20: teardown parks the arm straight above where it stands, at the z
    of the initial pose plus the larger of the configured clearance and
    50 mm: at least 50 mm above the initial pose, whatever contact height
    is or is not known. *)
Theorem cleanup_parks_above_initial_pose (s s' : State) :
  cleanup s = Ret tt s' ->
  fst (robot_xyz s') = fst (robot_xyz s) /\
  snd (robot_xyz s') = (snd (pose0 s) + py_max (safe_offset_mm s) 50)%Q /\
  (snd (pose0 s) + 50 <= snd (robot_xyz s'))%Q.
Proof.
  unfold cleanup. intros H.
  apply bind_ret_inv in H. destruct H as ([] & s1 & H1 & H).
  apply bind_ret_inv in H. destruct H as ([] & s2 & H2 & H).
  match type of H with ?m s2 = _ => assert (Hk : keeps robot_xyz m) end.
  { pose proof (keeps_save robot_xyz (fun _ _ => eq_refl) (fun _ _ => eq_refl)).
    unfold_devices. keeps_go. }
  specialize (Hk s2). rewrite H in Hk.
  revert H1 H2. unfold move_to_safe_position. run_monad. cbn -[Qplus py_max].
  intros [= <-] [= <-]. cbn -[Qplus py_max] in Hk. rewrite Hk.
  cbn -[Qplus py_max].
  split; [now destruct (robot_xyz s) as [[x y] z]|]. split; [reflexivity|].
  apply Qplus_le_r. apply py_max_ge.
Qed.

Lemma cleanup_parks_above_initial_pose_witness :
  exists s',
    cleanup session_contact = Ret tt s' /\
    (fst (robot_xyz s') = fst (robot_xyz session_contact) /\
     snd (robot_xyz s') =
       (snd (pose0 session_contact) + py_max (safe_offset_mm session_contact) 50)%Q /\
     (snd (pose0 session_contact) + 50 <= snd (robot_xyz s'))%Q).
Proof.
  eexists. split; [vm_compute; reflexivity|].
  apply (cleanup_parks_above_initial_pose session_contact).
  vm_compute. reflexivity.
Defined.




(** X22: the joint check sends at most one command, for every angle of
    the sixth joint: none exactly when the angle is within [-180, 180],
    otherwise one joint move to the angle read minus 360 (above 180) or
    plus 360 (below -180); for an angle within [-540, 540] the angle
    commanded is within [-180, 180]. *)
Theorem joint_limit_removes_one_turn (s : State) :
  exists evs,
    _check_joint_limit s = Ret tt (add_events evs s) /\
    List.length evs <= 1 /\
    (evs = [] <-> (-180 <= joint6 (env s) /\ joint6 (env s) <= 180)%Q) /\
    (forall ev, In ev evs ->
       ((180 < joint6 (env s))%Q /\ ev = MoveJoint (joint6 (env s) - 360)) \/
       ((joint6 (env s) < -180)%Q /\ ev = MoveJoint (joint6 (env s) + 360))) /\
    ((-540 <= joint6 (env s) /\ joint6 (env s) <= 540)%Q ->
     forall t, In (MoveJoint t) evs -> (-180 <= t /\ t <= 180)%Q).
Proof.
  unfold _check_joint_limit, bind, get, emit, modify, ret. cbv zeta.
  set (j := joint6 (env s)).
  destruct (Qle_bool j 180) eqn:Eh; cbn [negb].
  - destruct (Qle_bool (-180) j) eqn:El; cbn [negb].
    + exists []. rewrite add_events_nil. split; [reflexivity|].
      split; [cbn; lia|].
      split; [split; [intros _|reflexivity]|].
      { split; now apply Qle_bool_iff. }
      split; [intros ev []|intros _ t []].
    + exists [MoveJoint (j + 360)]. split; [reflexivity|].
      assert (Hlt : (j < -180)%Q).
      { apply Qnot_le_lt. intros Hle. apply Qle_bool_iff in Hle. congruence. }
      split; [cbn; lia|].
      split; [split; [discriminate|]|].
      { intros [Hlo _]. exfalso. apply (Qlt_not_le _ _ Hlt Hlo). }
      split.
      * intros ev [<-|[]]. right. split; [exact Hlt | reflexivity].
      * intros [Hlo Hhi] t [[= <-]|[]]. split.
        -- apply (Qplus_le_l _ _ (-360)). ring_simplify. exact Hlo.
        -- apply Qlt_le_weak in Hlt.
           apply (Qplus_le_l _ _ (-360)). ring_simplify.
           eapply Qle_trans; [exact Hlt|]. discriminate.
  - exists [MoveJoint (j - 360)]. split; [reflexivity|].
    assert (Hgt : (180 < j)%Q).
    { apply Qnot_le_lt. intros Hle. apply Qle_bool_iff in Hle. congruence. }
    split; [cbn; lia|].
    split; [split; [discriminate|]|].
    { intros [_ Hhi]. exfalso. apply (Qlt_not_le _ _ Hgt Hhi). }
    split.
    + intros ev [<-|[]]. left. split; [exact Hgt | reflexivity].
    + intros [Hlo Hhi] t [[= <-]|[]]. split.
      * apply Qlt_le_weak in Hgt.
        apply (Qplus_le_l _ _ 360). ring_simplify.
        eapply Qle_trans; [|exact Hgt]. discriminate.
      * apply (Qplus_le_l _ _ 360). ring_simplify. exact Hhi.
Qed.

(** ** Reading a stored trajectory back *)

Lemma adjacent_keys_in_order i :
  i < 999 -> String.leb (step_key_of i) (step_key_of (S i)) = true.
Proof.
  intros Hi.
  assert (H : forallb (fun i => String.leb (step_key_of i) (step_key_of (S i)))
                      (seq 0 999) = true) by (vm_compute; reflexivity).
  rewrite forallb_forall in H. apply H. apply in_seq. lia.
Qed.

Lemma sorted_keys_unchanged n : forall a,
  a + n <= 1000 ->
  py_sorted (map step_key_of (seq a n)) = map step_key_of (seq a n).
Proof.
  induction n as [|n IH]; intros a Ha; [reflexivity|].
  cbn [seq map py_sorted fold_right]. fold (py_sorted (map step_key_of (seq (S a) n))).
  rewrite IH by lia.
  destruct n as [|n]; [reflexivity|].
  cbn [seq map insert_sorted]. rewrite adjacent_keys_in_order by lia. reflexivity.
Qed.

Lemma string_of_uint_no_underscore d : forall acc,
  last_segment_from (NilEmpty.string_of_uint d) acc =
  (acc ++ NilEmpty.string_of_uint d)%string.
Proof.
  assert (Happ : forall (a : string) c s,
             ((a ++ String c EmptyString) ++ s = a ++ String c s)%string).
  { intros a c s. induction a as [|x a IHa]; cbn; [reflexivity | now rewrite IHa]. }
  assert (Hnil : forall a : string, (a ++ "")%string = a).
  { intros a. induction a as [|x a IHa]; cbn; [reflexivity | now rewrite IHa]. }
  induction d; intros acc; cbn [NilEmpty.string_of_uint last_segment_from];
    try (now rewrite Hnil);
    cbn [Ascii.eqb Bool.eqb]; rewrite IHd; apply Happ.
Qed.

Lemma last_segment_of_key i : last_segment (step_key_of i) = fmt_03d i.
Proof.
  unfold last_segment, step_key_of, fmt_03d. cbv zeta.
  rewrite zeros_string_of_uint.
  cbn [append last_segment_from Ascii.eqb Bool.eqb].
  now rewrite string_of_uint_no_underscore.
Qed.

Lemma fmt_03d_not_empty i : fmt_03d i <> EmptyString.
Proof.
  intros H. apply (f_equal String.length) in H. revert H.
  unfold fmt_03d. cbv zeta.
  rewrite string_length_app, string_length_zeros. cbn [String.length].
  destruct (Nat.to_uint i) eqn:E; cbn [NilEmpty.string_of_uint String.length];
    lia.
Qed.

Lemma int_of_key (other : string -> option Z) i :
  py_int_str other (last_segment (step_key_of i)) = inr (Z.of_nat i).
Proof.
  rewrite last_segment_of_key. unfold py_int_str.
  destruct (fmt_03d i) as [|c rest] eqn:E; [now apply fmt_03d_not_empty in E|].
  rewrite <- E. unfold fmt_03d. cbv zeta. rewrite zeros_string_of_uint.
  rewrite NilEmpty.usu, of_uint_leading_zeros, Unsigned.of_to. reflexivity.
Qed.

Lemma extract_loop_keyed (other : string -> option Z)
      (tr : TrajData) : forall (rest : TrajData) a,
  (forall kv, In kv rest -> dict_get (fst kv) tr = Some (snd kv)) ->
  dict_keys rest = map step_key_of (seq a (List.length rest)) ->
  extract_loop other tr (dict_keys rest) =
  inr (map Z.of_nat (seq a (List.length rest)),
       map (fun kv => snd (force_xyz (snd kv))) rest).
Proof.
  induction rest as [|[k r] rest IH]; intros a Hget Hkeys; [reflexivity|].
  change (dict_keys ((k, r) :: rest)) with (k :: dict_keys rest) in *.
  cbn [map List.length seq] in *.
  injection Hkeys as Hk Hkeys. subst k.
  cbn [extract_loop].
  assert (Hr : dict_get (step_key_of a) tr = Some r)
    by (apply (Hget (step_key_of a, r)); now left).
  rewrite Hr. cbv zeta. rewrite int_of_key. unfold rbind.
  rewrite (IH (S a)); [reflexivity | | exact Hkeys].
  intros kv Hin. apply Hget. now right.
Qed.

Lemma wf_dict_get_own {V : Type} (d : dict V) :
  dict_wf d -> forall kv, In kv d -> dict_get (fst kv) d = Some (snd kv).
Proof.
  induction d as [|[k v] d IH]; intros Hwf kv Hin; [contradiction|].
  cbn [dict_get]. destruct Hin as [<-|Hin].
  - cbn. now rewrite String.eqb_refl.
  - destruct (String.eqb_spec (fst kv) k) as [Heq|Hne].
    + exfalso. pose proof (dict_wf_head_fresh _ _ _ Hwf) as Hfresh.
      apply dict_get_None_notin in Hfresh. apply Hfresh.
      rewrite <- Heq. unfold dict_keys. now apply in_map.
    + apply IH; [eapply dict_wf_tail; eauto | exact Hin].
Qed.

(** X23: what the collector writes, the visualizer reads in order.  For a
    stored trajectory whose keys are step_000, step_001, ... (as
    [_execute_trajectory] produces them) with at most 1000 steps,
    [extract_force_z] returns the step numbers 0, 1, ... and the z forces
    of the records in execution order: sorting the keys as strings keeps
    their order, and the number read from each key is its index. *)
Theorem stored_trajectory_is_extracted_in_order
        (other : string -> option Z) (data : Tree) (obj traj : string)
        (od : ObjData) (tr : TrajData) :
  dict_get obj data = Some od ->
  dict_get traj od = Some tr ->
  dict_keys tr = map step_key_of (seq 0 (List.length tr)) ->
  List.length tr <= 1000 ->
  extract_force_z other data obj traj =
  inr (map Z.of_nat (seq 0 (List.length tr)),
       map (fun kv => snd (force_xyz (snd kv))) tr).
Proof.
  intros Hod Htr Hkeys Hlen. unfold extract_force_z. rewrite Hod, Htr.
  rewrite Hkeys at 1. rewrite sorted_keys_unchanged by lia. rewrite <- Hkeys.
  apply extract_loop_keyed; [|exact Hkeys].
  apply wf_dict_get_own. unfold dict_wf. rewrite Hkeys.
  apply NoDup_map_NoDup_ForallPairs; [|apply seq_NoDup].
  intros x y _ _. apply step_key_of_inj.
Qed.

Lemma stored_trajectory_is_extracted_in_order_witness :
  extract_force_z (fun _ => None)
    [("cube", [("push", keyed [some_record; some_record])])] "cube" "push" =
  inr (map Z.of_nat (seq 0 (List.length (keyed [some_record; some_record]))),
       map (fun kv => snd (force_xyz (snd kv))) (keyed [some_record; some_record])).
Proof.
  apply (stored_trajectory_is_extracted_in_order (fun _ => None)
           [("cube", [("push", keyed [some_record; some_record])])] "cube" "push"
           [("push", keyed [some_record; some_record])]
           (keyed [some_record; some_record])).
  - reflexivity.
  - reflexivity.
  - reflexivity.
  - cbn. lia.
Defined.
